(** * nuxt-workers: the call-correlation protocol and its generators

    A shallow embedding of [src/module.ts] (the export registry built by
    [getContents]) and of [src/plugins/unplugin.ts] (the worker transform
    and the virtual proxy module), together with the run-time behaviour of
    the JavaScript that the two plugins emit: the worker-side dispatcher
    and the caller-side proxies with their pending-call table. *)

From stdpp Require Import gmap strings list fin_maps pretty.

Open Scope string_scope.
Open Scope list_scope.

(** ** JavaScript values

    The data that crosses the worker boundary, and the few language
    operations the emitted code applies to it: property access
    [e.message], [ToString] (inside [new Error(x)]) and the truthiness
    test [!fn]. The values are those that can be cloned, so that a
    [postMessage] of them succeeds. Numbers are the integers below 2^53
    in size (exact in a double, and printed in full by [ToString]). *)
Module JS.

#[local] Set Warnings "-register-all".

Inductive value : Type :=
  | VUndefined
  | VNull
  | VBool (b : bool)
  | VNum (n : Z)
  | VStr (s : string)
  | VError (name message : string)           (* an Error instance *)
  | VObject (props : list (string * value))  (* a plain object, own data properties *)
  | VBoxed (prim : value).                   (* Object(primitive) *)

(** Completion of an expression or a handler: a normal value or a
    thrown one. *)
Inductive completion (A : Type) : Type :=
  | Normal (a : A)
  | Throw (e : value).
Arguments Normal {A} a.
Arguments Throw {A} e.

Definition bind {A B} (c : completion A) (k : A → completion B) : completion B :=
  match c with
  | Normal a => k a
  | Throw e => Throw e
  end.

Definition TypeError (message : string) : value := VError "TypeError" message.

Definition is_object (v : value) : bool :=
  match v with
  | VError _ _ | VObject _ | VBoxed _ => true
  | _ => false
  end.

(** Own-property lookup in the properties of an object literal, listed
    in source order: a repeated key keeps its last value. *)
Fixpoint own {A} (props : list (string * A)) (key : string) : option A :=
  match props with
  | [] => None
  | (k, v) :: rest =>
      match own rest key with
      | Some w => Some w
      | None => if String.eqb k key then Some v else None
      end
  end.

(** [e.message]. Reading a property of [undefined] or [null] throws. *)
Definition get_message (e : value) : completion value :=
  match e with
  | VUndefined => Throw (TypeError "Cannot read properties of undefined (reading 'message')")
  | VNull => Throw (TypeError "Cannot read properties of null (reading 'message')")
  | VError _ message => Normal (VStr message)
  | VObject props => Normal (default VUndefined (own props "message"))
  | VBool _ | VNum _ | VStr _ | VBoxed _ => Normal VUndefined
  end.

(** [ToString]. A plain object goes through [Object.prototype.toString]
    unless an own data property shadows it, in which case neither
    [toString] nor [valueOf] yields a primitive. *)
Fixpoint to_string (v : value) : completion string :=
  match v with
  | VUndefined => Normal "undefined"
  | VNull => Normal "null"
  | VBool true => Normal "true"
  | VBool false => Normal "false"
  | VNum n => Normal (pretty n)
  | VStr s => Normal s
  | VError name message =>
      Normal (if String.eqb name "" then message
              else if String.eqb message "" then name
              else name +:+ ": " +:+ message)
  | VObject props =>
      match own props "toString" with
      | None => Normal "[object Object]"
      | Some _ => Throw (TypeError "Cannot convert object to primitive value")
      end
  | VBoxed prim => to_string prim
  end.

(** [new Error(x)]: the message is [ToString(x)] unless [x] is
    [undefined], where [message] is inherited and empty. *)
Definition new_Error (x : value) : completion value :=
  match x with
  | VUndefined => Normal (VError "Error" "")
  | _ => bind (to_string x) (fun msg => Normal (VError "Error" msg))
  end.

(** What awaiting a call yields, for a call that settles. *)
Inductive outcome : Type :=
  | Returned (v : value)
  | Thrown (e : value).

Definition function : Type := list value → outcome.

(** What a table slot can hold, as far as [!fn] and [fn(...args)] can
    tell: a function, another truthy value, or a falsy one. *)
Inductive slot : Type :=
  | Function (f : function)
  | Truthy
  | Falsy.

(** [await fn(...args)]. *)
Definition call (fn : slot) (args : list value) : outcome :=
  match fn with
  | Function f => f args
  | Truthy | Falsy => Thrown (TypeError "fn is not a function")
  end.

Definition cannot_convert : value :=
  TypeError "Cannot convert undefined or null to object".

(** [Object(value)] called as a function. *)
Definition Object_constructor : function := fun args =>
  match args with
  | [] | VUndefined :: _ | VNull :: _ => Returned (VObject [])
  | v :: _ => Returned (if is_object v then v else VBoxed v)
  end.

(** [Object.prototype.isPrototypeOf(V)] with [this] undefined. *)
Definition isPrototypeOf : function := fun args =>
  match args with
  | v :: _ => if is_object v then Thrown cannot_convert else Returned (VBool false)
  | [] => Returned (VBool false)
  end.

(** [Object.prototype.hasOwnProperty(V)] and [propertyIsEnumerable(V)]
    with [this] undefined: the key is converted first. *)
Definition hasOwnProperty : function := fun args =>
  match to_string (hd VUndefined args) with
  | Normal _ => Thrown cannot_convert
  | Throw e => Thrown e
  end.

(** The properties every object literal inherits, as a call
    [fn(...args)] sees them ([this] is undefined). [__proto__] reads as
    the prototype object itself. The texts of the engine's TypeErrors
    are implementation-defined; V8's wording stands in for them. *)
Definition Object_prototype : list (string * slot) :=
  [ ("constructor", Function Object_constructor);
    ("__defineGetter__", Function (fun _ => Thrown cannot_convert));
    ("__defineSetter__", Function (fun _ => Thrown cannot_convert));
    ("hasOwnProperty", Function hasOwnProperty);
    ("__lookupGetter__", Function (fun _ => Thrown cannot_convert));
    ("__lookupSetter__", Function (fun _ => Thrown cannot_convert));
    ("isPrototypeOf", Function isPrototypeOf);
    ("propertyIsEnumerable", Function hasOwnProperty);
    ("toString", Function (fun _ => Returned (VStr "[object Undefined]")));
    ("valueOf", Function (fun _ => Thrown cannot_convert));
    ("__proto__", Truthy);
    ("toLocaleString",
     Function (fun _ =>
       Thrown (TypeError "Object.prototype.toLocaleString called on null or undefined"))) ].

(** [literal[key]] for an object literal [{ a: a, b: b }]: an own
    property, else one inherited from [Object.prototype], else
    [undefined]. (A literal key spelled [__proto__] would set the
    prototype and not a property; no such key is among the exports
    here.) *)
Definition get (literal : list (string * slot)) (key : string) : option slot :=
  match own literal key with
  | Some s => Some s
  | None => own Object_prototype key
  end.

(** [!fn] where [fn] is the result of a property read. *)
Definition falsy (fn : option slot) : bool :=
  match fn with
  | None | Some Falsy => true
  | Some (Function _) | Some Truthy => false
  end.

End JS.
Import JS.

(** ** The export registry ([src/module.ts], [getContents]) *)
Module Registry.

Record context : Type := Context {
  workerExports : gmap string string;        (* export name ↦ owning file *)
  reverseMap : gmap string (list string)     (* file ↦ its export names *)
}.

(** One [console.warn] of the scan: the duplicate name, the file being
    scanned and the file that already owns the name. *)
Record conflict : Type := Conflict {
  name : string;
  file : string;
  existing : string
}.

(** [context.workerExports = Object.create(null)] and the same for
    [reverseMap]. *)
Definition reset (_ : context) : context :=
  {| workerExports := ∅; reverseMap := ∅ |}.

(** The body of [for (const e of exports)]. *)
Definition register_name (f : string) (acc : context * list conflict) (e : string)
    : context * list conflict :=
  let '(ctx, warned) := acc in
  match workerExports ctx !! e with
  | Some owner => (ctx, warned ++ [Conflict e f owner])
  | None =>
      ({| workerExports := <[e := f]> (workerExports ctx);
          reverseMap :=
            <[f := default [] (reverseMap ctx !! f) ++ [e]]> (reverseMap ctx) |},
       warned)
  end.

(** The body of [for (const file of flattenedFiles)], given the names
    [findExportNames] found in the file. *)
Definition register (f : string) (exports : list string) (ctx : context)
    : context * list conflict :=
  foldl (register_name f) (ctx, []) exports.

(** A whole scan: both maps are replaced, then every file is
    registered in order. *)
Definition getContents (files : list (string * list string)) (ctx : context)
    : context * list conflict :=
  foldl (fun acc fe =>
           let '(c, ws) := register fe.1 fe.2 acc.1 in (c, acc.2 ++ ws))
        (reset ctx, []) files.

End Registry.


(** ** Messages on the channel *)

(** What a proxy posts: [{ name, args, id }]. *)
Record CallEnvelope : Type := {
  name : string;
  args : list value;
  id : N
}.

(** What comes back: an object with an [id] and optional [result] and
    [error] keys; [None] is an absent key. Ids are the numbers a counter
    from 0 can reach. *)
Record ResponseEnvelope : Type := {
  r_result : option value;
  r_error : option value;
  r_id : N
}.

(** ** The worker transform ([WorkerTransformPlugin]) *)
Module Transform.

Inductive mode : Type := server | client.

Record WorkerPluginOptions : Type := {
  opt_mode : mode;
  context : Registry.context;
  sourcemap : bool
}.

Definition chr (n : nat) : string := String (Ascii.ascii_of_nat n) "".
Definition dq : string := chr 34.

(** The line terminators, which [.] does not match: LF, CR and the
    UTF-8 encodings of U+2028 and U+2029. *)
Definition line_terminators : list string :=
  [ chr 10; chr 13;
    chr 226 +:+ chr 128 +:+ chr 168;
    chr 226 +:+ chr 128 +:+ chr 169 ].

(** No line terminator starts anywhere in [s]. *)
Fixpoint no_line_terminator (s : string) : bool :=
  match s with
  | "" => true
  | String _ rest =>
      negb (existsb (fun t => String.prefix t s) line_terminators)
      && no_line_terminator rest
  end.

(** Whether [/.+$/] matches at the start of [s]: [.+] has to run to
    the end of the string, so [s] is not empty and holds no line
    terminator. *)
Definition dot_plus_end (s : string) : bool :=
  negb (String.eqb s "") && no_line_terminator s.

(** [_id.replace(/\?.+$/, '')]: the leftmost [?] that is followed, up
    to the end of the string, by one or more characters other than line
    terminators is cut off together with what follows it. *)
Fixpoint strip_query (_id : string) : string :=
  match _id with
  | "" => ""
  | String c rest =>
      if Ascii.eqb c (Ascii.ascii_of_nat 63) && dot_plus_end rest then ""
      else String c (strip_query rest)
  end.

(** [s.endsWith(suffix)]. *)
Definition endsWith (s suffix : string) : bool :=
  String.prefix (String.rev suffix) (String.rev s).

Definition isShared (id : string) : bool := endsWith id ".shared.ts".

(** [__worker_exports__ = { a: a, b: b }]. *)
Definition workerExports (exports : list string) : string :=
  "__worker_exports__ = { "
  +:+ String.concat ", " (map (fun e => e +:+ ": " +:+ e) exports)
  +:+ " }".

(** The text appended to a regular worker file. *)
Definition worker_lines (exports : list string) : list string :=
  [ "";
    "const " +:+ workerExports exports +:+ ";";
    "self.onmessage = async (e) => {";
    "  console.log(" +:+ dq +:+ "[Worker] Message received:" +:+ dq +:+ ", e.data);";
    "  const { name, args, id } = e.data;";
    "  const fn = __worker_exports__[name];";
    "  if (!fn) {";
    "    self.postMessage({ error: " +:+ dq +:+ "Function not found: " +:+ dq +:+ " + name, id });";
    "    return;";
    "  }";
    "  try {";
    "    const result = await fn(...args);";
    "    self.postMessage({ result, id });";
    "  } catch (e) {";
    "    self.postMessage({ error: e.message, id });";
    "  }";
    "};" ].

(** The text appended to a [.shared.ts] worker file. *)
Definition shared_worker_lines (exports : list string) : list string :=
  [ "";
    "const " +:+ workerExports exports +:+ ";";
    "self.onconnect = function(e) {";
    "  const port = e.ports[0];";
    "  console.log(" +:+ dq +:+ "[SharedWorker] Connected:" +:+ dq +:+ ", port);";
    "  port.onmessage = async function(event) {";
    "    console.log(" +:+ dq +:+ "[SharedWorker] Message received:" +:+ dq +:+ ", event.data);";
    "    const { name, args, id } = event.data;";
    "    const fn = __worker_exports__[name];";
    "    if (!fn) {";
    "      port.postMessage({ error: " +:+ dq +:+ "Function not found: " +:+ dq +:+ " + name, id });";
    "      return;";
    "    }";
    "    try {";
    "      const result = await fn(...args);";
    "      port.postMessage({ result, id });";
    "    } catch (e) {";
    "      port.postMessage({ error: e.message, id });";
    "    }";
    "  };";
    "  port.start();";
    "};" ].

Definition appended (shared : bool) (exports : list string) : string :=
  String.concat (chr 10)
    (if shared then shared_worker_lines exports else worker_lines exports).

Record TransformResult : Type := {
  code : string;
  map : bool        (* whether a source map is generated; [false] is [null] *)
}.

(** [transform(code, _id)]. [None] is the bare [return]: the file goes
    on unchanged. [strip_exports] stands for the loop over mlly's
    [findExports] that deletes the [export] keywords. *)
Definition transform (opts : WorkerPluginOptions) (strip_exports : string → string)
    (code _id : string) : option TransformResult :=
  match opt_mode opts with
  | server => None
  | client =>
      let id := strip_query _id in
      match Registry.reverseMap (context opts) !! id with
      | None => None
      | Some exports =>
          Some {| code := strip_exports code +:+ appended (isShared id) exports;
                  map := sourcemap opts |}
      end
  end.

End Transform.

(** ** The dispatcher the transform appends to a worker file *)
Module Dispatcher.

(** How the [async] handler ends: normally, or with a rejection nobody
    handles. Neither ends the worker. *)
Definition handled : Type := list ResponseEnvelope * completion unit.

Definition post (data : ResponseEnvelope) : handled := ([data], Normal ()).

(** [self.onmessage] (on a shared worker, [port.onmessage] of the
    connected port, with the same body). [__worker_exports__] is the
    object literal built from the file's bindings; the first component
    of the result lists the calls to [postMessage]. *)
Definition onmessage (__worker_exports__ : list (string * slot)) (data : CallEnvelope)
    : handled :=
  let fn := get __worker_exports__ (name data) in
  if falsy fn then
    post {| r_result := None;
            r_error := Some (VStr ("Function not found: " +:+ name data));
            r_id := id data |}
  else
    match call (default Falsy fn) (args data) with
    | Returned result =>
        post {| r_result := Some result; r_error := None; r_id := id data |}
    | Thrown e =>
        match get_message e with
        | Normal message =>
            post {| r_result := None; r_error := Some message; r_id := id data |}
        | Throw e' => ([], Throw e')
        end
    end.

End Dispatcher.

(** ** The virtual module [WorkerPlugin] generates ([load]) *)
Module Proxy.
Import Transform.

Inductive promise : Type :=
  | Pending
  | Fulfilled (v : value)
  | Rejected (reason : value).

Inductive workerType : Type := Worker | SharedWorker.

(** A constructed worker: its kind, the file it runs, and whether its
    port was started (only a shared worker has one). *)
Record worker : Type := {
  type : workerType;
  url : string;
  port_started : bool
}.

(** The module-level bindings [map], [count] and [_nuxt_worker] of a
    client-mode module, and around them what the run time holds: the
    promises the proxies have returned (a promise is named by its
    position, and so is the [[resolve, reject]] pair that settles it),
    the workers constructed so far, and the envelopes posted, each with
    the worker it went to. *)
Record state : Type := {
  map : gmap N nat;
  count : N;
  _nuxt_worker : option nat;
  promises : list promise;
  workers : list worker;
  posted : list (nat * CallEnvelope)
}.

(** [const map = {}; let count = 0; let _nuxt_worker;] *)
Definition init : state :=
  {| map := ∅; count := 0; _nuxt_worker := None;
     promises := []; workers := []; posted := [] |}.

(** [new Worker(new URL(file, import.meta.url), { type: "module" })],
    or [new SharedWorker(...)] for a [.shared.ts] file, whose port
    [initWorker] starts. *)
Definition new_worker (file : string) : worker :=
  {| type := if isShared file then SharedWorker else Worker;
     url := file;
     port_started := isShared file |}.

(** [initWorker()]: constructs the worker for [file], attaches the
    router to it (to its port when shared) and returns it. *)
Definition initWorker (file : string) (st : state) : state * nat :=
  ({| map := map st; count := count st; _nuxt_worker := _nuxt_worker st;
      promises := promises st;
      workers := workers st ++ [new_worker file];
      posted := posted st |},
   length (workers st)).

(** The body of a client-mode proxy:
    [_nuxt_worker ||= initWorker(); const id = count++;
     return new Promise((resolve, reject) => {
       map[id] = [resolve, reject]; target.postMessage({ name, args, id }) })].
    Returns the new state and the promise handed to the caller. *)
Definition isolated (file name : string) (args : list value) (st : state)
    : state * nat :=
  let '(st, w) :=
    match _nuxt_worker st with
    | Some w => (st, w)
    | None => initWorker file st
    end in
  let id := count st in
  let p := length (promises st) in
  ({| map := <[id := p]> (map st);
      count := (id + 1)%N;
      _nuxt_worker := Some w;
      promises := promises st ++ [Pending];
      workers := workers st;
      posted := posted st ++ [(w, {| name := name; args := args; id := id |})] |},
   p).

(** A module namespace that exports a callable [then] is a thenable:
    [import(file)] does not resolve with the namespace but hands
    [resolve] and [reject] to that export. *)
Definition thenable (imported : list (string * slot)) : bool :=
  match own imported "then" with
  | Some (Function _) => true
  | _ => false
  end.

(** The body of a server-mode proxy:
    [const { name: fn } = await import(file); return fn(...args)].
    [imported] holds the bindings of the module namespace, which
    inherits nothing. When the namespace is a thenable, what [await]
    yields, if anything, is up to its [then]: the call [fn(...args)] on
    the module's own binding is not made, and the result is [None]. *)
Definition in_process (imported : list (string * slot)) (name : string)
    (args : list value) : option outcome :=
  if thenable imported then None
  else Some (call (default Falsy (own imported name)) args).

(** What the promise returned by a proxy does: it settles as a direct
    call did, or it is a promise of the pending-call table, or it is
    left to the [then] export of a thenable namespace. *)
Inductive returned : Type :=
  | Direct (o : outcome)
  | Future (p : nat)
  | Adopted.

(** One generated [export async function name (...args)], as [load]
    writes it for the mode of the build. *)
Definition proxy (m : mode) (imported : list (string * slot)) (file name : string)
    (args : list value) (st : state) : state * returned :=
  match m with
  | server =>
      (st, match in_process imported name args with
           | Some o => Direct o
           | None => Adopted
           end)
  | client => let '(st', p) := isolated file name args st in (st', Future p)
  end.

(** [resolve(v)] or [reject(reason)] on promise [p]: a settled promise
    stays as it is. *)
Definition settle (p : nat) (to : promise) (st : state) : state :=
  match promises st !! p with
  | Some Pending =>
      {| map := map st; count := count st; _nuxt_worker := _nuxt_worker st;
         promises := <[p := to]> (promises st);
         workers := workers st; posted := posted st |}
  | _ => st
  end.

(** The router, [worker.onmessage] or [worker.port.onmessage]:
    [const [resolve, reject] = map[e.data.id];
     if ("error" in e.data) reject(new Error(e.data.error));
     else resolve(e.data.result)].
    An id that was never a key reads as [undefined], and destructuring
    that throws. *)
Definition onmessage (data : ResponseEnvelope) (st : state) : completion state :=
  match map st !! r_id data with
  | None =>
      Throw (TypeError "undefined is not iterable (cannot read property Symbol(Symbol.iterator))")
  | Some p =>
      match r_error data with
      | Some error =>
          bind (new_Error error) (fun reason => Normal (settle p (Rejected reason) st))
      | None =>
          Normal (settle p (Fulfilled (default VUndefined (r_result data))) st)
      end
  end.

(** What happens on the caller's thread, one task at a time. *)
Inductive event : Type :=
  | Call (name : string) (args : list value)
  | Deliver (data : ResponseEnvelope).

(** A handler that throws has changed nothing; the event loop reports
    the exception and goes on to the next task. *)
Definition step (file : string) (st : state) (ev : event) : state :=
  match ev with
  | Call name args => (isolated file name args st).1
  | Deliver data =>
      match onmessage data st with
      | Normal st' => st'
      | Throw _ => st
      end
  end.

Definition run (file : string) (trace : list event) (st : state) : state :=
  foldl (step file) st trace.

(** [calls] made one after the other, with the promises they return. *)
Fixpoint calls (file : string) (cs : list (string * list value)) (st : state)
    : state * list nat :=
  match cs with
  | [] => (st, [])
  | (name, args) :: rest =>
      let '(st1, p) := isolated file name args st in
      let '(st2, ps) := calls file rest st1 in
      (st2, p :: ps)
  end.

(** The binding of a module for [file]: either nothing was constructed
    or posted yet, or the stored worker is the one worker constructed
    and every envelope went to it. *)
Definition bound (file : string) (st : state) : Prop :=
  match _nuxt_worker st with
  | None => workers st = [] ∧ posted st = []
  | Some w =>
      w = 0 ∧ workers st = [new_worker file] ∧ Forall (fun m => m.1 = 0) (posted st)
  end.

(** The number of proxy calls in a trace. *)
Fixpoint n_calls (trace : list event) : nat :=
  match trace with
  | [] => 0
  | Call _ _ :: rest => S (n_calls rest)
  | Deliver _ :: rest => n_calls rest
  end.

End Proxy.

(** ** The envelope of the specification

    A ResponseEnvelope is [{id, result?, error?}] with exactly one of
    [result] and [error] present and [error] a string; it carries
    [Result(value)] or [Error(message)], and the caller's future is to
    be fulfilled with the one or rejected with an Error of the other. *)
Module Spec.

Definition outcome (data : ResponseEnvelope) : option Proxy.promise :=
  match r_result data, r_error data with
  | Some v, None => Some (Proxy.Fulfilled v)
  | None, Some (VStr message) => Some (Proxy.Rejected (VError "Error" message))
  | _, _ => None
  end.

End Spec.

(** ** Worker functions used in the examples *)
Module Fixtures.

(** [(a, b) => a + b] on two numbers; the fixture refuses anything
    else. *)
Definition sum : function := fun args =>
  match args with
  | VNum a :: VNum b :: _ => Returned (VNum (a + b))
  | _ => Thrown (TypeError "numbers expected")
  end.

(** [() => { throw null }]. *)
Definition throws_null : function := fun _ => Thrown VNull.

(** [() => Promise.reject()]. *)
Definition rejects : function := fun _ => Thrown VUndefined.

End Fixtures.

(** ** The declaration file [getContents] writes

    The scan loop once more, now with the [script] it builds next to the
    two maps. [import_path] stands for
    [JSON.stringify(relative(typesDir, file))]. *)
Module Declarations.
Section script.
Context (import_path : string → string).

Definition nl : string := Transform.chr 10.

Definition header : string :=
  "type ToAsyncFunction<T> = T extends (...args: infer A) => infer R ? (...args: A) => Promise<R> : T"
  +:+ nl +:+ "export {}" +:+ nl +:+ nl +:+ "declare global {" +:+ nl.

Definition footer : string := "}" +:+ nl.

(** One line of the [declare global] block. *)
Definition declaration (e file : string) : string :=
  "  const " +:+ e +:+ ": ToAsyncFunction<typeof import(" +:+ import_path file
  +:+ ")." +:+ e +:+ ">" +:+ nl.

(** What the loop carries along. *)
Record scan : Type := {
  ctx : Registry.context;
  warned : list Registry.conflict;
  script : string
}.

(** The body of [for (const e of exports)]. *)
Definition scan_name (f : string) (acc : scan) (e : string) : scan :=
  match Registry.workerExports (ctx acc) !! e with
  | Some owner =>
      {| ctx := ctx acc;
         warned := warned acc ++ [Registry.Conflict e f owner];
         script := script acc |}
  | None =>
      {| ctx :=
           {| Registry.workerExports := <[e := f]> (Registry.workerExports (ctx acc));
              Registry.reverseMap :=
                <[f := default [] (Registry.reverseMap (ctx acc) !! f) ++ [e]]>
                  (Registry.reverseMap (ctx acc)) |};
         warned := warned acc;
         script := script acc +:+ declaration e f |}
  end.

(** The body of [for (const file of flattenedFiles)]. *)
Definition scan_file (acc : scan) (fe : string * list string) : scan :=
  foldl (scan_name fe.1) acc fe.2.

(** [getContents()]: the header, the loop over the files from freshly
    created maps, the closing brace. The string is what the function
    returns; the context is what it leaves behind. *)
Definition getContents (files : list (string * list string)) (c : Registry.context)
    : scan :=
  let acc :=
    foldl scan_file {| ctx := Registry.reset c; warned := []; script := header |} files in
  {| ctx := ctx acc; warned := warned acc; script := script acc +:+ footer |}.

End script.
End Declarations.

(** ** The rest of [WorkerPlugin]: [resolveId], [loadInclude], [load] *)
Module Plugin.
Import Transform.

Definition VIRTUAL_ID : string := "virtual:nuxt-workers.mjs".

(** [s.startsWith(p)]. *)
Definition startsWith (s p : string) : bool := String.prefix p s.

(** [resolveId(id)]; [None] is the bare return. *)
Definition resolveId (id : string) : option string :=
  if startsWith id VIRTUAL_ID then Some id else None.

Definition loadInclude (id : string) : bool := startsWith id VIRTUAL_ID.

Section load.
(** [JSON.stringify] on a string. *)
Context (stringify : string → string).

Definition nl : string := chr 10.

(** The router that [initWorker] installs, as text. *)
Definition router_lines (shared : bool) : list string :=
  if shared then
    [ "";
      "  worker.port.onmessage = (e) => {";
      "    const [resolve, reject] = map[e.data.id];";
      "    if (" +:+ dq +:+ "error" +:+ dq +:+ " in e.data) {";
      "      reject(new Error(e.data.error));";
      "    } else {";
      "      resolve(e.data.result);";
      "    }";
      "  };";
      "  worker.port.start(); // Start the port explicitly";
      "  " ]
  else
    [ "";
      "  worker.onmessage = (e) => {";
      "    const [resolve, reject] = map[e.data.id];";
      "    if (" +:+ dq +:+ "error" +:+ dq +:+ " in e.data) {";
      "      reject(new Error(e.data.error));";
      "    } else {";
      "      resolve(e.data.result);";
      "    }";
      "  };";
      "  " ].

(** What a client-mode module starts with: the table, the counter, the
    worker slot and [initWorker]. *)
Definition prelude (file : string) : string :=
  let shared := isShared file in
  let workerType := if shared then "SharedWorker" else "Worker" in
  String.concat nl
    [ "";
      "const map = {};";
      "let count = 0;";
      "let _nuxt_worker;";
      "";
      "function initWorker() {";
      "  const worker = new " +:+ workerType +:+ "(new URL(" +:+ stringify file
        +:+ ", import.meta.url), { type: " +:+ dq +:+ "module" +:+ dq +:+ " });";
      "  console.log(" +:+ dq +:+ "[" +:+ workerType +:+ "] Initialized for " +:+ file
        +:+ dq +:+ "); // Debug log";
      "  " +:+ String.concat nl (router_lines shared);
      "  return worker;";
      "}";
      "" ].

(** The text of one proxy. *)
Definition proxy_source (m : mode) (file name : string) : string :=
  nl +:+ "export async function " +:+ name +:+ " (...args) {"
  +:+ match m with
      | server =>
          String.concat nl
            [ "";
              "  const { " +:+ name +:+ ": fn } = await import(" +:+ stringify file +:+ ");";
              "  return fn(...args);";
              "" ]
      | client =>
          String.concat nl
            [ "";
              "  _nuxt_worker ||= initWorker();";
              "  const id = count++;";
              "  return new Promise((resolve, reject) => {";
              "    map[id] = [resolve, reject];";
              "    " +:+ (if isShared file then "_nuxt_worker.port" else "_nuxt_worker")
                +:+ ".postMessage({ name: " +:+ stringify name +:+ ", args, id });";
              "  });";
              "" ]
      end
  +:+ "}" +:+ nl.

(** What [load] returns: the bare string ['export {}'], or
    [{ code, map: null }]. *)
Inductive loaded : Type :=
  | Bare (source : string)
  | Generated (code : string).

(** [load(id)], from the point where [file] has been read off the
    query of [id] ([parseQuery(id.split('?')[1]).source as string]). *)
Definition load (opts : WorkerPluginOptions) (file : string) : loaded :=
  match Registry.reverseMap (context opts) !! file with
  | None | Some [] => Bare "export {}"
  | Some exports =>
      Generated
        (foldl (fun source name => source +:+ proxy_source (opt_mode opts) file name)
           (match opt_mode opts with
            | client => "" +:+ prelude file
            | server => ""
            end)
           exports)
  end.

End load.
End Plugin.

(** ** The hooks [setup] registers *)
Module Hooks.

(** One entry pushed by the [imports:extend] hook, for one key [name] of
    [workerExports] and the file it maps to. [withQuery] stands for
    [withQuery('', { source: file })]. *)
Record import : Type := {
  name : string;
  from : string
}.

Definition import_of (withQuery : string → string) (name file : string) : import :=
  {| name := name; from := Plugin.VIRTUAL_ID +:+ withQuery file |}.

(** The guard of the [builder:watch] hook, [dirs.some(dir =>
    path.startsWith(dir))], on the resolved [path]. *)
Definition watched (dirs : list string) (path : string) : bool :=
  existsb (fun dir => Plugin.startsWith path dir) dirs.

(** The [filter] handed to [updateTemplates]. *)
Definition filter (filename : string) : bool :=
  Transform.endsWith filename "nuxt-workers.d.ts"
  || existsb (fun i => Transform.endsWith filename i)
       ["/types/imports.d.ts"; "/imports.d.ts"; "/imports.mjs"].

(** The hook: nothing for a path outside the scanned directories, else
    a template update with [filter]. *)
Definition builder_watch (dirs : list string) (path : string) : option (string → bool) :=
  if watched dirs path then Some filter else None.

End Hooks.

(** ** What the router hands to the promise it addresses *)
Module Router.

(** [reject(new Error(e.data.error))] when the key [error] is there,
    else [resolve(e.data.result)]; [new Error] can throw. *)
Definition settlement (data : ResponseEnvelope) : completion Proxy.promise :=
  match r_error data with
  | Some error => bind (new_Error error) (fun reason => Normal (Proxy.Rejected reason))
  | None => Normal (Proxy.Fulfilled (default VUndefined (r_result data)))
  end.

(** The table of a binding that has made [count] calls: the ids below
    [count] are bound, each to the promise of its call, and no other id
    is; there is one promise for each call. *)
Definition tabled (st : Proxy.state) : Prop :=
  length (Proxy.promises st) = N.to_nat (Proxy.count st) ∧
  ∀ k, Proxy.map st !! k
       = if decide (k < Proxy.count st)%N then Some (N.to_nat k) else None.

End Router.

(** ** The scan seen as one pass over export occurrences *)
Module Scan.

(** Every (file, export name) pair of a scan, in the order the two
    nested loops visit them. *)
Definition occurrences (files : list (string * list string)) : list (string * string) :=
  files ≫= (fun fe => (fun e => (fe.1, e)) <$> fe.2).

(** The file in which a name is met first, if it is met at all. *)
Definition first_owner (files : list (string * list string)) (e : string)
    : option string :=
  (fun hit => hit.2.1) <$> list_find (fun occ => occ.2 = e) (occurrences files).

(** The occurrences at which a name is met for the first time, in scan
    order; [seen] holds the names met before. *)
Fixpoint first_occurrences (seen : list string) (occs : list (string * string))
    : list (string * string) :=
  match occs with
  | [] => []
  | (f, e) :: rest =>
      if decide (e ∈ seen) then first_occurrences seen rest
      else (f, e) :: first_occurrences (seen ++ [e]) rest
  end.

(** The two maps say the same thing, and no file is listed with an empty
    or a repeating list of names. *)
Definition consistent (ctx : Registry.context) : Prop :=
  (∀ e f, Registry.workerExports ctx !! e = Some f
          ↔ e ∈ default [] (Registry.reverseMap ctx !! f)) ∧
  (∀ f names, Registry.reverseMap ctx !! f = Some names → names ≠ [] ∧ NoDup names).

End Scan.

(** ** The character that starts a query *)
Module Query.

(** [?]. *)
Definition mark : Ascii.ascii := Ascii.ascii_of_nat 63.

(** The characters of a string. *)
Definition chars (s : string) : list Ascii.ascii := String.list_ascii_of_string s.

End Query.

(** * Properties *)

(** ** The registry *)

(** C8: a scan that meets [x] first in [mA] and then in [mB] keeps
    [x ↦ mA] and reports exactly one conflict; a scan of [mA] followed
    by a fresh scan of [mB], which starts by clearing both maps, leaves
    [x ↦ mB] and nothing else, and reports no conflict. Whatever the
    maps held before the scans does not matter. *)
Theorem register_first_wins_reset_clears (mA mB x : string) (c0 : Registry.context) :
  (let scan := Registry.getContents [(mA, [x]); (mB, [x])] c0 in
   Registry.workerExports scan.1 !! x = Some mA ∧
   scan.2 = [Registry.Conflict x mB mA]) ∧
  (let first := Registry.getContents [(mA, [x])] c0 in
   let second := Registry.getContents [(mB, [x])] first.1 in
   Registry.workerExports first.1 !! x = Some mA ∧
   first.2 = [] ∧
   Registry.workerExports second.1 = {[ x := mB ]} ∧
   Registry.reverseMap second.1 = {[ mB := [x] ]} ∧
   second.2 = []).
Proof.
  unfold Registry.getContents, Registry.register. cbn -[insert lookup].
  rewrite !lookup_empty. cbn -[insert lookup].
  rewrite !lookup_insert_eq. cbn -[insert lookup].
  by rewrite lookup_insert_eq.
Qed.

(** A scan of two files that both export [x] is the first scenario
    run by [getContents] itself. *)
Example getContents_two_files :
  Registry.getContents [("a.ts", ["x"]); ("b.ts", ["x"; "y"])]
    {| Registry.workerExports := {[ "old" := "gone.ts" ]};
       Registry.reverseMap := {[ "gone.ts" := ["old"] ]} |}
  = ({| Registry.workerExports := {[ "x" := "a.ts"; "y" := "b.ts" ]};
        Registry.reverseMap := {[ "a.ts" := ["x"]; "b.ts" := ["y"] ]} |},
     [Registry.Conflict "x" "b.ts" "a.ts"]).
Proof. by vm_compute. Qed.

(** ** The worker transform *)

Example strip_query_cuts_query :
  Transform.strip_query "/app/workers/math.ts?worker&v=1" = "/app/workers/math.ts".
Proof. reflexivity. Qed.

Example strip_query_keeps_bare_mark :
  Transform.strip_query "/app/workers/math.ts?" = "/app/workers/math.ts?".
Proof. reflexivity. Qed.

(** C10: the transform returns nothing, leaving the file as it is,
    exactly when the build is in server mode or the file's id, the query
    cut off, is not a key of [reverseMap]; a replacement is the file
    with the dispatcher appended, so that happens only to a registered
    worker file in client mode. *)
Theorem transform_only_registered_client_files
    (opts : Transform.WorkerPluginOptions) (strip_exports : string → string)
    (code _id : string) :
  (Transform.transform opts strip_exports code _id = None ↔
   Transform.opt_mode opts = Transform.server ∨
   Transform.strip_query _id ∉ dom (Registry.reverseMap (Transform.context opts))) ∧
  match Transform.transform opts strip_exports code _id with
  | None => True
  | Some r =>
      Transform.opt_mode opts = Transform.client ∧
      ∃ exports,
        Registry.reverseMap (Transform.context opts) !! Transform.strip_query _id
          = Some exports ∧
        Transform.code r =
          strip_exports code
          +:+ Transform.appended (Transform.isShared (Transform.strip_query _id)) exports
  end.
Proof.
  rewrite not_elem_of_dom. unfold Transform.transform.
  destruct (Transform.opt_mode opts).
  - split; [|done]. split; [by left|done].
  - destruct (Registry.reverseMap _ !! _) as [exports|] eqn:Hid.
    + split; [|split; [done|by exists exports]].
      split; [done|]. by intros [?|?].
    + split; [|done]. split; [by right|done].
Qed.

(** ** The dispatcher *)

(** A function that returns gets its value back under [result]. *)
Lemma dispatcher_returns (exports : list (string * slot)) (data : CallEnvelope)
    (f : function) (v : value) :
  get exports (name data) = Some (Function f) →
  f (args data) = Returned v →
  Dispatcher.onmessage exports data
  = Dispatcher.post {| r_result := Some v; r_error := None; r_id := id data |}.
Proof. intros Hget Hf. unfold Dispatcher.onmessage. by rewrite Hget; simpl; rewrite Hf. Qed.

(** A function that throws an Error gets its message back under
    [error]. *)
Lemma dispatcher_forwards_message (exports : list (string * slot)) (data : CallEnvelope)
    (f : function) (kind message : string) :
  get exports (name data) = Some (Function f) →
  f (args data) = Thrown (VError kind message) →
  Dispatcher.onmessage exports data
  = Dispatcher.post {| r_result := None; r_error := Some (VStr message); r_id := id data |}.
Proof. intros Hget Hf. unfold Dispatcher.onmessage. by rewrite Hget; simpl; rewrite Hf. Qed.

(** Unless the call throws [undefined] or [null], the dispatcher posts
    one response, with the id of the call and exactly one of [result]
    and [error]. *)
Lemma dispatcher_posts_once (exports : list (string * slot)) (data : CallEnvelope) :
  call (default Falsy (get exports (name data))) (args data) ≠ Thrown VUndefined →
  call (default Falsy (get exports (name data))) (args data) ≠ Thrown VNull →
  ∃ r, Dispatcher.onmessage exports data = ([r], Normal ()) ∧
       r_id r = id data ∧
       (is_Some (r_result r) ↔ r_error r = None).
Proof.
  intros Hu Hn. unfold Dispatcher.onmessage, Dispatcher.post.
  destruct (falsy _).
  { eexists; split; [done|]; simpl. split; [done|]. split; [by intros []|done]. }
  destruct (call _ _) as [v|e].
  { eexists; split; [done|]; simpl. by split; [|split; [|eauto]]. }
  destruct e; try done; simpl;
    (eexists; split; [done|]; simpl; split; [done|]; split; [by intros []|done]).
Qed.

(** A name that is neither an export nor a property of
    [Object.prototype] is reported as not found. *)
Lemma dispatcher_function_not_found (exports : list (string * slot)) (data : CallEnvelope) :
  own exports (name data) = None →
  own Object_prototype (name data) = None →
  Dispatcher.onmessage exports data
  = Dispatcher.post
      {| r_result := None;
         r_error := Some (VStr ("Function not found: " +:+ name data));
         r_id := id data |}.
Proof.
  intros Hown Hproto. unfold Dispatcher.onmessage, get. by rewrite Hown, Hproto.
Qed.

Example dispatcher_missing :
  Dispatcher.onmessage [("sum", Function Fixtures.sum)]
    {| name := "missing"; args := []; id := 4 |}
  = ([{| r_result := None;
         r_error := Some (VStr "Function not found: missing");
         r_id := 4 |}], Normal ()).
Proof. reflexivity. Qed.

Example dispatcher_sum :
  Dispatcher.onmessage [("sum", Function Fixtures.sum)]
    {| name := "sum"; args := [VNum 2; VNum 3]; id := 0 |}
  = ([{| r_result := Some (VNum 5); r_error := None; r_id := 0 |}], Normal ()).
Proof. reflexivity. Qed.

(** C4 (what the code does at the failing input): a worker function
    that throws [null], or rejects without a reason, makes the [catch]
    block itself throw while it reads [e.message]; the dispatcher posts
    no response at all and its handler ends in a rejection. *)
Theorem dispatcher_posts_nothing_on_nullish_throw :
  Dispatcher.onmessage [("boom", Function Fixtures.throws_null)]
    {| name := "boom"; args := []; id := 0 |}
  = ([], Throw (TypeError "Cannot read properties of null (reading 'message')")) ∧
  Dispatcher.onmessage [("boom", Function Fixtures.rejects)]
    {| name := "boom"; args := []; id := 0 |}
  = ([], Throw (TypeError "Cannot read properties of undefined (reading 'message')")).
Proof. split; reflexivity. Qed.

(** ** The router *)

Section router.
Import Proxy.

(** Settling touches the promises and nothing else. *)
Lemma settle_frame (p : nat) (to : promise) (st : state) :
  map (settle p to st) = map st ∧ count (settle p to st) = count st ∧
  _nuxt_worker (settle p to st) = _nuxt_worker st ∧
  workers (settle p to st) = workers st ∧ posted (settle p to st) = posted st ∧
  length (promises (settle p to st)) = length (promises st).
Proof.
  unfold settle. destruct (promises st !! p) as [[| |]|]; simpl; try done.
  by rewrite length_insert.
Qed.

Lemma settle_pending (p : nat) (to : promise) (st : state) :
  promises st !! p = Some Pending → promises (settle p to st) !! p = Some to.
Proof.
  intros Hp. unfold settle. rewrite Hp. simpl.
  apply list_lookup_insert_eq. by eapply lookup_lt_Some.
Qed.

Lemma settle_settled (p : nat) (to : promise) (st : state) :
  promises st !! p ≠ Some Pending → settle p to st = st.
Proof. unfold settle. by destruct (promises st !! p) as [[| |]|]. Qed.

Lemma settle_other (p q : nat) (to : promise) (st : state) :
  p ≠ q → promises (settle p to st) !! q = promises st !! q.
Proof.
  intros Hne. unfold settle. destruct (promises st !! p) as [[| |]|]; simpl; try done.
  by apply list_lookup_insert_ne.
Qed.

(** On an envelope of the specification the router settles with the
    outcome the envelope carries. *)
Lemma onmessage_found (data : ResponseEnvelope) (st : state) (p : nat) (o : promise) :
  map st !! r_id data = Some p →
  Spec.outcome data = Some o →
  onmessage data st = Normal (settle p o st).
Proof.
  intros Hp Ho. unfold onmessage. rewrite Hp. unfold Spec.outcome in Ho.
  destruct (r_result data) as [v|], (r_error data) as [[]|]; simplify_eq/=; done.
Qed.

Lemma outcome_not_pending (data : ResponseEnvelope) : Spec.outcome data ≠ Some Pending.
Proof.
  unfold Spec.outcome.
  by destruct (r_result data) as [v|], (r_error data) as [[]|].
Qed.

(** No task changes a promise that is settled. *)
Lemma step_settled (file : string) (ev : event) (st : state) (p : nat) (o : promise) :
  promises st !! p = Some o → o ≠ Pending →
  promises (step file st ev) !! p = Some o.
Proof.
  intros Hp Ho. destruct ev as [name args|data]; simpl.
  - unfold isolated, initWorker. destruct (_nuxt_worker st); simpl;
      by apply lookup_app_l_Some.
  - unfold onmessage. destruct (map st !! r_id data) as [q|]; [|done].
    assert (∀ to, promises (settle q to st) !! p = Some o) as Hsettle.
    { intros to. destruct (decide (q = p)) as [->|Hne].
      - rewrite settle_settled; [done|]. rewrite Hp. intros [= Heq]. by apply Ho.
      - by rewrite settle_other. }
    destruct (r_error data) as [e|]; simpl; [|done].
    by destruct (new_Error e); simpl.
Qed.

Lemma settled_is_final (file : string) (trace : list event) (st : state)
    (p : nat) (o : promise) :
  promises st !! p = Some o → o ≠ Pending →
  promises (run file trace st) !! p = Some o.
Proof.
  revert st. induction trace as [|ev trace IH]; intros st Hp Ho; [done|].
  apply IH; [|done]. by apply step_settled.
Qed.

End router.

(** C5 (what the code does at the failing input): [toString] is not an
    export of the worker, yet [__worker_exports__["toString"]] finds the
    function every object literal inherits; the dispatcher calls it and
    posts its return value under [result], and the caller's future is
    fulfilled with that string instead of being rejected with
    "Function not found: toString". *)
Theorem dispatcher_calls_inherited_toString :
  let exports := [("sum", Function Fixtures.sum)] in
  let response :=
    {| r_result := Some (VStr "[object Undefined]"); r_error := None; r_id := 0 |} in
  own exports "toString" = None ∧
  Dispatcher.onmessage exports {| name := "toString"; args := []; id := 0 |}
  = ([response], Normal ()) ∧
  Proxy.promises
    (Proxy.run "math.ts" [Proxy.Call "toString" []; Proxy.Deliver response] Proxy.init)
  = [Proxy.Fulfilled (VStr "[object Undefined]")].
Proof. by vm_compute. Qed.

(** The same for every worker that does not export a [toString] of
    its own. *)
Lemma dispatcher_inherited_toString (exports : list (string * slot))
    (arguments : list value) (k : N) :
  own exports "toString" = None →
  Dispatcher.onmessage exports {| name := "toString"; args := arguments; id := k |}
  = Dispatcher.post
      {| r_result := Some (VStr "[object Undefined]"); r_error := None; r_id := k |}.
Proof. intros Hown. unfold Dispatcher.onmessage, get. simpl. by rewrite Hown. Qed.

(** Other inherited names: [constructor] answers with a fresh object,
    [valueOf] with the engine's TypeError, and [__proto__], which is
    truthy and no function, with "fn is not a function". *)
Example dispatcher_inherited_names :
  let exports := [("sum", Function Fixtures.sum)] in
  Dispatcher.onmessage exports {| name := "constructor"; args := []; id := 1 |}
  = ([{| r_result := Some (VObject []); r_error := None; r_id := 1 |}], Normal ()) ∧
  Dispatcher.onmessage exports {| name := "valueOf"; args := []; id := 2 |}
  = ([{| r_result := None;
         r_error := Some (VStr "Cannot convert undefined or null to object");
         r_id := 2 |}], Normal ()) ∧
  Dispatcher.onmessage exports {| name := "__proto__"; args := []; id := 3 |}
  = ([{| r_result := None; r_error := Some (VStr "fn is not a function"); r_id := 3 |}],
     Normal ()).
Proof. by vm_compute. Qed.

(** For a name that nothing answers to, both ends do what is asked:
    the response carries "Function not found: " and the name, and a
    pending future with that id is rejected with an Error of that
    message. *)
Lemma unknown_name_rejects (exports : list (string * slot)) (data : CallEnvelope)
    (st : Proxy.state) (p : nat) :
  own exports (name data) = None →
  own Object_prototype (name data) = None →
  Proxy.map st !! id data = Some p →
  Proxy.promises st !! p = Some Proxy.Pending →
  ∃ r st',
    Dispatcher.onmessage exports data = ([r], Normal ()) ∧
    r_id r = id data ∧
    r_error r = Some (VStr ("Function not found: " +:+ name data)) ∧
    Proxy.onmessage r st = Normal st' ∧
    Proxy.promises st' !! p
    = Some (Proxy.Rejected (VError "Error" ("Function not found: " +:+ name data))).
Proof.
  intros Hown Hproto Hp Hpending.
  rewrite dispatcher_function_not_found by done.
  eexists _, _. split; [done|]. split; [done|]. split; [done|]. simpl.
  split.
  - unfold Proxy.onmessage. simpl. by rewrite Hp.
  - by apply settle_pending.
Qed.

(** C3 (the claim fails): the table of a fresh module has no entry 7,
    and the router throws on a response with that id. *)
Lemma router_throws_on_unknown_id :
  let data := {| r_result := Some (VNum 1); r_error := None; r_id := 7 |} in
  Proxy.map Proxy.init !! r_id data = None ∧
  Proxy.onmessage data Proxy.init
  = Throw (TypeError "undefined is not iterable (cannot read property Symbol(Symbol.iterator))").
Proof. by vm_compute. Qed.

(** C3 (amended): for a response whose id is not in the table the
    router throws a TypeError before it settles or changes anything, and
    the messages that follow are handled as if it had never arrived. *)
Theorem router_unknown_id_throws_and_goes_on (data : ResponseEnvelope) (st : Proxy.state) :
  Proxy.map st !! r_id data = None →
  (∃ message, Proxy.onmessage data st = Throw (TypeError message)) ∧
  ∀ file trace,
    Proxy.run file (Proxy.Deliver data :: trace) st = Proxy.run file trace st.
Proof.
  intros Hid. unfold Proxy.run. simpl. unfold Proxy.onmessage. rewrite Hid.
  split; [by eexists|done].
Qed.

Lemma router_unknown_id_throws_and_goes_on_witness :
  let data := {| r_result := Some (VNum 1); r_error := None; r_id := 7 |} in
  (∃ message, Proxy.onmessage data Proxy.init = Throw (TypeError message)) ∧
  ∀ file trace,
    Proxy.run file (Proxy.Deliver data :: trace) Proxy.init
    = Proxy.run file trace Proxy.init.
Proof.
  apply (router_unknown_id_throws_and_goes_on
           {| r_result := Some (VNum 1); r_error := None; r_id := 7 |} Proxy.init).
  reflexivity.
Defined.

(** C2 (the claim fails): after the call with id 0 and its response
    the future is fulfilled, and the table still holds the entry for
    id 0. *)
Lemma router_keeps_entry :
  let st := (Proxy.isolated "math.ts" "sum" [VNum 2; VNum 3] Proxy.init).1 in
  let data := {| r_result := Some (VNum 5); r_error := None; r_id := 0 |} in
  Proxy.map st !! r_id data = Some 0 ∧
  ∃ st', Proxy.onmessage data st = Normal st' ∧
         Proxy.promises st' !! 0 = Some (Proxy.Fulfilled (VNum 5)) ∧
         Proxy.map st' !! r_id data = Some 0.
Proof. split; [reflexivity|]. eexists. by vm_compute. Qed.

(** C2 (amended): when the router finds the id of a ResponseEnvelope
    in the table it settles the future and leaves the table as it was;
    the future is settled only if it was still pending, so a later
    ResponseEnvelope with the same id finds the entry again and changes
    nothing, and whatever calls and responses follow, the future keeps
    the state it was settled with. *)
Theorem router_settles_once_and_keeps_entry
    (data : ResponseEnvelope) (st : Proxy.state) (p : nat) (o : Proxy.promise) :
  Proxy.map st !! r_id data = Some p →
  Spec.outcome data = Some o →
  ∃ st',
    Proxy.onmessage data st = Normal st' ∧
    Proxy.map st' = Proxy.map st ∧
    Proxy.promises st' !! p
    = match Proxy.promises st !! p with
      | Some Proxy.Pending => Some o
      | settled => settled
      end ∧
    (∀ data' o',
       r_id data' = r_id data →
       Spec.outcome data' = Some o' →
       Proxy.onmessage data' st' = Normal st') ∧
    (∀ file trace,
       is_Some (Proxy.promises st !! p) →
       Proxy.promises (Proxy.run file trace st') !! p = Proxy.promises st' !! p).
Proof.
  intros Hp Ho. exists (Proxy.settle p o st).
  split; [by apply onmessage_found|].
  split; [apply settle_frame|].
  assert (Proxy.promises (Proxy.settle p o st) !! p ≠ Some Proxy.Pending) as Hsettled.
  { destruct (Proxy.promises st !! p) as [[| |]|] eqn:Hst.
    - rewrite (settle_pending _ _ _ Hst). intros [= ->].
      by apply (outcome_not_pending data).
    - by rewrite settle_settled; rewrite Hst.
    - by rewrite settle_settled; rewrite Hst.
    - by rewrite settle_settled; rewrite Hst. }
  split; [|split].
  - destruct (Proxy.promises st !! p) as [[| |]|] eqn:Hst;
      first [by apply settle_pending | by rewrite settle_settled; rewrite Hst].
  - intros data' o' Hid Ho'.
    rewrite (onmessage_found data' _ p o');
      [|by rewrite Hid; destruct (settle_frame p o st) as [-> _]|done].
    by rewrite settle_settled.
  - intros file trace [o0 Ho0].
    assert (is_Some (Proxy.promises (Proxy.settle p o st) !! p)) as [o1 Ho1].
    { apply lookup_lt_is_Some. destruct (settle_frame p o st) as (_&_&_&_&_& ->).
      by eapply lookup_lt_Some. }
    rewrite Ho1. apply settled_is_final; [done|]. intros ->. by apply Hsettled.
Qed.

Lemma router_settles_once_and_keeps_entry_witness :
  let st := (Proxy.isolated "math.ts" "sum" [VNum 2; VNum 3] Proxy.init).1 in
  let data := {| r_result := Some (VNum 5); r_error := None; r_id := 0 |} in
  ∃ st',
    Proxy.onmessage data st = Normal st' ∧
    Proxy.map st' = Proxy.map st ∧
    Proxy.promises st' !! 0
    = match Proxy.promises st !! 0 with
      | Some Proxy.Pending => Some (Proxy.Fulfilled (VNum 5))
      | settled => settled
      end ∧
    (∀ data' o',
       r_id data' = r_id data →
       Spec.outcome data' = Some o' →
       Proxy.onmessage data' st' = Normal st') ∧
    (∀ file trace,
       is_Some (Proxy.promises st !! 0) →
       Proxy.promises (Proxy.run file trace st') !! 0 = Proxy.promises st' !! 0).
Proof.
  apply (router_settles_once_and_keeps_entry
           {| r_result := Some (VNum 5); r_error := None; r_id := 0 |}
           (Proxy.isolated "math.ts" "sum" [VNum 2; VNum 3] Proxy.init).1
           0 (Proxy.Fulfilled (VNum 5))); reflexivity.
Defined.

(** ** The proxies *)

(** C9 (the claim fails): a worker module that exports a function
    [then] next to [sum] is a thenable to [await import(file)]; the
    in-process proxy for [sum] does not make the direct call and does
    not return 5. *)
Lemma in_process_proxy_meets_thenable :
  let imported :=
    [("sum", Function Fixtures.sum); ("then", Function (fun _ => Returned VUndefined))] in
  own imported "sum" = Some (Function Fixtures.sum) ∧
  Proxy.proxy Transform.server imported "math.ts" "sum" [VNum 2; VNum 3] Proxy.init
  = (Proxy.init, Proxy.Adopted) ∧
  Proxy.proxy Transform.server imported "math.ts" "sum" [VNum 2; VNum 3] Proxy.init
  ≠ (Proxy.init, Proxy.Direct (Fixtures.sum [VNum 2; VNum 3])).
Proof. split; [reflexivity|]. split; [reflexivity|discriminate]. Qed.

(** C9 (amended): in server mode, for a module that does not export a
    callable [then], the proxy for an export [f] calls the module's own
    [f] with the arguments it was given and hands back what that call
    returned or threw; the state of the isolated protocol (table,
    counter, worker, posted envelopes) is not touched. *)
Theorem in_process_proxy_is_direct_call
    (imported : list (string * slot)) (file f : string) (fn : function)
    (args : list value) (st : Proxy.state) :
  Proxy.thenable imported = false →
  own imported f = Some (Function fn) →
  Proxy.proxy Transform.server imported file f args st = (st, Proxy.Direct (fn args)).
Proof.
  intros Hthen Hf. unfold Proxy.proxy, Proxy.in_process. by rewrite Hthen, Hf.
Qed.

(** The in-process proxy for [sum] with [2, 3] returns 5. *)
Lemma in_process_proxy_is_direct_call_witness :
  Proxy.proxy Transform.server [("sum", Function Fixtures.sum)] "math.ts" "sum"
    [VNum 2; VNum 3] Proxy.init
  = (Proxy.init, Proxy.Direct (Returned (VNum 5))).
Proof.
  apply (in_process_proxy_is_direct_call
           [("sum", Function Fixtures.sum)] "math.ts" "sum" Fixtures.sum
           [VNum 2; VNum 3] Proxy.init); reflexivity.
Defined.

Section proxies.
Import Proxy.
Context (file : string).

(** What one client-mode call does to each part of the state. *)
Lemma isolated_spec (name : string) (args : list value) (st : state) :
  let w := default (length (workers st)) (_nuxt_worker st) in
  let st' := (isolated file name args st).1 in
  (isolated file name args st).2 = length (promises st) ∧
  map st' = <[count st := length (promises st)]> (map st) ∧
  count st' = (count st + 1)%N ∧
  promises st' = promises st ++ [Pending] ∧
  posted st' = posted st ++ [(w, {| name := name; args := args; id := count st |})] ∧
  _nuxt_worker st' = Some w.
Proof. unfold isolated, initWorker. by destruct (_nuxt_worker st). Qed.

(** A delivery, thrown or not, leaves everything but the promises. *)
Lemma deliver_frame (data : ResponseEnvelope) (st : state) :
  let st' := step file st (Deliver data) in
  map st' = map st ∧ count st' = count st ∧ _nuxt_worker st' = _nuxt_worker st ∧
  workers st' = workers st ∧ posted st' = posted st.
Proof.
  simpl. unfold onmessage.
  destruct (map st !! r_id data) as [p|]; [|done].
  destruct (r_error data) as [e|]; simpl.
  - destruct (new_Error e) as [reason|]; simpl; [|done].
    by destruct (settle_frame p (Rejected reason) st) as (-> & -> & -> & -> & -> & _).
  - by destruct (settle_frame p (Fulfilled (default VUndefined (r_result data))) st)
      as (-> & -> & -> & -> & -> & _).
Qed.

(** The counter and the ids posted, from any state on. *)
Lemma run_ids (trace : list event) (st : state) :
  count (run file trace st) = (count st + N.of_nat (n_calls trace))%N ∧
  (fun m => id m.2) <$> posted (run file trace st)
  = ((fun m => id m.2) <$> posted st)
    ++ ((fun i => (count st + N.of_nat i)%N) <$> seq 0 (n_calls trace)).
Proof.
  revert st. induction trace as [|[name args|data] trace IH]; intros st.
  - simpl. split; [lia|by rewrite app_nil_r].
  - change (run file (Call name args :: trace) st)
      with (run file trace (isolated file name args st).1).
    destruct (IH (isolated file name args st).1) as [-> ->].
    destruct (isolated_spec name args st) as (_ & _ & -> & _ & -> & _).
    simpl n_calls. split; [lia|].
    rewrite fmap_app, <- app_assoc. simpl. f_equal. f_equal.
    { by rewrite N.add_0_r. }
    rewrite <- fmap_S_seq, <- list_fmap_compose. apply list_fmap_ext.
    intros _ i _. simpl. lia.
  - change (run file (Deliver data :: trace) st)
      with (run file trace (step file st (Deliver data))).
    destruct (IH (step file st (Deliver data))) as [-> ->].
    by destruct (deliver_frame data st) as (_ & -> & _ & _ & ->).
Qed.

End proxies.

(** C6: the counter of a binding starts at 0; a call posts the current
    value of the counter as its id and adds exactly one to it; so,
    whatever responses arrive in between, the calls of a binding carry
    the ids 0, 1, 2, ... in the order they are made, and no id comes
    twice. *)
Theorem correlation_ids_count_up (file : string) (trace : list Proxy.event) :
  Proxy.count Proxy.init = 0%N ∧
  (∀ name args st,
     let st' := (Proxy.isolated file name args st).1 in
     Proxy.count st' = (Proxy.count st + 1)%N ∧
     last (Proxy.posted st') =
       Some (default (length (Proxy.workers st)) (Proxy._nuxt_worker st),
             {| name := name; args := args; id := Proxy.count st |})) ∧
  let st := Proxy.run file trace Proxy.init in
  Proxy.count st = N.of_nat (Proxy.n_calls trace) ∧
  (fun m => id m.2) <$> Proxy.posted st = N.of_nat <$> seq 0 (Proxy.n_calls trace) ∧
  NoDup ((fun m => id m.2) <$> Proxy.posted st).
Proof.
  split; [done|]. split.
  { intros name args st. cbv zeta.
    destruct (isolated_spec file name args st) as (_ & _ & -> & _ & -> & _).
    split; [done|]. by rewrite last_snoc. }
  destruct (run_ids file trace Proxy.init) as [Hcount Hids].
  assert ((fun m => id m.2) <$> Proxy.posted (Proxy.run file trace Proxy.init)
          = N.of_nat <$> seq 0 (Proxy.n_calls trace)) as Heq.
  { rewrite Hids. simpl. apply list_fmap_ext. intros _ i _. simpl. lia. }
  simpl. split; [rewrite Hcount; simpl; lia|]. split; [done|].
  rewrite Heq. apply NoDup_fmap; [apply _|apply NoDup_seq].
Qed.

Section binding.
Import Proxy.
Context (file : string).

Lemma isolated_bound (name : string) (args : list value) (st : state) :
  bound file st →
  bound file (isolated file name args st).1 ∧
  _nuxt_worker (isolated file name args st).1 = Some 0.
Proof.
  unfold bound, isolated, initWorker.
  destruct (_nuxt_worker st) as [w|]; simpl.
  - intros (-> & -> & Hposted). split; [|done].
    split; [done|]. split; [done|]. apply Forall_app. split; [done|]. by constructor.
  - intros [-> ->]. simpl. split; [|done].
    split; [done|]. split; [done|]. by constructor.
Qed.

Lemma deliver_bound (data : ResponseEnvelope) (st : state) :
  bound file st → bound file (step file st (Deliver data)).
Proof.
  unfold bound.
  by destruct (deliver_frame file data st) as (_ & _ & -> & -> & ->).
Qed.

Lemma run_bound (trace : list event) (st : state) :
  bound file st →
  bound file (run file trace st) ∧
  _nuxt_worker (run file trace st)
  = match n_calls trace with
    | 0 => _nuxt_worker st
    | S _ => Some 0
    end.
Proof.
  revert st. induction trace as [|[name args|data] trace IH]; intros st Hst.
  - done.
  - change (run file (Call name args :: trace) st)
      with (run file trace (isolated file name args st).1).
    destruct (isolated_bound name args st Hst) as [Hst' Hw].
    destruct (IH _ Hst') as [Hrun ->]. split; [done|].
    rewrite Hw. simpl. by destruct (n_calls trace).
  - change (run file (Deliver data :: trace) st)
      with (run file trace (step file st (Deliver data))).
    destruct (IH _ (deliver_bound data st Hst)) as [Hrun ->]. split; [done|].
    simpl n_calls. by destruct (deliver_frame file data st) as (_ & _ & -> & _).
Qed.

End binding.

(** C7: a client-mode module has no worker until the first proxy call;
    that call constructs the worker for the module's file and stores
    it, and from then on, through any further calls and responses, the
    stored worker is that same one, no second worker is constructed,
    and every envelope is posted to it. *)
Theorem worker_is_created_once_on_first_call (file : string) (trace : list Proxy.event) :
  let st := Proxy.run file trace Proxy.init in
  match Proxy.n_calls trace with
  | 0 => Proxy._nuxt_worker st = None ∧ Proxy.workers st = []
  | S _ =>
      Proxy._nuxt_worker st = Some 0 ∧
      Proxy.workers st = [Proxy.new_worker file] ∧
      Forall (fun m => m.1 = 0) (Proxy.posted st)
  end.
Proof.
  assert (Proxy.bound file Proxy.init) as Hinit by done.
  destruct (run_bound file trace Proxy.init Hinit) as [Hbound Hw].
  simpl. unfold Proxy.bound in Hbound. rewrite Hw in Hbound. rewrite Hw.
  destruct (Proxy.n_calls trace); simpl in *.
  - by destruct Hbound as [-> _].
  - by destruct Hbound as (_ & -> & ?).
Qed.

Section correlation.
Import Proxy.
Context (file : string).

(** [n] calls in a row take the next [n] ids and the next [n]
    promises, all pending, and leave the earlier entries alone. *)
Lemma calls_spec (cs : list (string * list value)) (st : state) :
  let st' := (calls file cs st).1 in
  (calls file cs st).2 = (fun i => length (promises st) + i) <$> seq 0 (length cs) ∧
  promises st' = promises st ++ replicate (length cs) Pending ∧
  count st' = (count st + N.of_nat (length cs))%N ∧
  (∀ k, (k < count st)%N → map st' !! k = map st !! k) ∧
  (∀ i, i < length cs →
        map st' !! (count st + N.of_nat i)%N = Some (length (promises st) + i)).
Proof.
  revert st. induction cs as [|[name args] cs IH]; intros st; cbv zeta.
  { simpl. rewrite app_nil_r. repeat split; [lia|lia]. }
  simpl.
  destruct (isolated file name args st) as [st1 p] eqn:Hcall.
  destruct (isolated_spec file name args st) as (Hp & Hmap & Hcount & Hprom & _).
  rewrite Hcall in Hp, Hmap, Hcount, Hprom. simpl in Hp, Hmap, Hcount, Hprom.
  specialize (IH st1). cbv zeta in IH.
  destruct (calls file cs st1) as [st2 ps] eqn:Hrest. simpl in IH |- *.
  destruct IH as (-> & -> & -> & Hold & Hnew).
  rewrite Hp, Hprom, Hcount, length_app. simpl. repeat split.
  - f_equal; [lia|]. rewrite <- fmap_S_seq, <- list_fmap_compose.
    apply list_fmap_ext. intros _ i _. simpl. lia.
  - by rewrite <- app_assoc.
  - lia.
  - intros k Hk. rewrite Hold by lia. rewrite Hmap. apply lookup_insert_ne. lia.
  - intros [|i] Hi.
    + rewrite Hold by lia. rewrite Hmap, N.add_0_r, Nat.add_0_r.
      apply lookup_insert_eq.
    + replace (count st + N.of_nat (S i))%N with (count st1 + N.of_nat i)%N by lia.
      rewrite Hnew by lia. rewrite Hprom, length_app. simpl. f_equal. lia.
Qed.

(** Responses with distinct ids, each for a pending promise of its
    own, settle exactly those promises, each with the outcome its
    response carries, in whatever order they are delivered. *)
Lemma deliver_all (handle : N → nat) (rs : list ResponseEnvelope) (st : state) :
  NoDup (r_id <$> rs) →
  (∀ r, r ∈ rs →
        map st !! r_id r = Some (handle (r_id r)) ∧
        promises st !! handle (r_id r) = Some Pending ∧
        is_Some (Spec.outcome r)) →
  (∀ r r', r ∈ rs → r' ∈ rs → handle (r_id r) = handle (r_id r') → r_id r = r_id r') →
  let st' := run file (Deliver <$> rs) st in
  map st' = map st ∧
  (∀ r, r ∈ rs → promises st' !! handle (r_id r) = Spec.outcome r) ∧
  (∀ q, (∀ r, r ∈ rs → handle (r_id r) ≠ q) → promises st' !! q = promises st !! q).
Proof.
  revert st. induction rs as [|r rs IH]; intros st Hdup Hrs Hinj; cbv zeta.
  { simpl. split; [done|]. split; [|done]. intros r Hr. by apply elem_of_nil in Hr. }
  rewrite fmap_cons in Hdup. apply NoDup_cons in Hdup as [Hfresh Hdup].
  destruct (Hrs r) as (Hmap & Hpending & [o Ho]); [by left|].
  change (run file (Deliver <$> r :: rs) st)
    with (run file (Deliver <$> rs) (step file st (Deliver r))).
  simpl step. rewrite (onmessage_found r st _ o Hmap Ho).
  set (st1 := settle (handle (r_id r)) o st).
  assert (∀ r', r' ∈ rs → handle (r_id r') ≠ handle (r_id r)) as Hother.
  { intros r' Hr' Heq. apply Hfresh. apply list_elem_of_fmap.
    exists r'. split; [|done]. symmetry. apply Hinj; [by right|by left|done]. }
  destruct (IH st1) as (Hmap' & Hsettled & Hrest).
  - done.
  - intros r' Hr'. destruct (Hrs r') as (? & ? & ?); [by right|].
    unfold st1. destruct (settle_frame (handle (r_id r)) o st) as [-> _].
    split; [done|]. split; [|done].
    rewrite settle_other; [done|]. intros Heq. by apply (Hother r').
  - intros r1 r2 ? ?. apply Hinj; by right.
  - split; [|split].
    + rewrite Hmap'. apply settle_frame.
    + intros r' [->|Hr']%elem_of_cons; [|by apply Hsettled].
      rewrite Hrest, Ho; [by apply settle_pending|].
      intros r'' Hr''. by apply Hother.
    + intros q Hq. rewrite Hrest.
      * apply settle_other. apply Hq. by left.
      * intros r' Hr'. apply Hq. by right.
Qed.

End correlation.

(** C1: let [n] calls be made on one binding, one after the other
    without a response in between, and let the ResponseEnvelopes for
    them, one for each id the calls took, arrive in any order. Then the
    future each call returned ends up settled with the outcome of the
    envelope that bears the id of that call. *)
Theorem concurrent_calls_settle_by_id
    (file : string) (cs : list (string * list value)) (rs : list ResponseEnvelope)
    (st : Proxy.state) :
  r_id <$> rs ≡ₚ (fun i => (Proxy.count st + N.of_nat i)%N) <$> seq 0 (length cs) →
  Forall (fun r => is_Some (Spec.outcome r)) rs →
  let st1 := (Proxy.calls file cs st).1 in
  let futures := (Proxy.calls file cs st).2 in
  let st2 := Proxy.run file (Proxy.Deliver <$> rs) st1 in
  length futures = length cs ∧
  ∀ i p r,
    futures !! i = Some p →
    r ∈ rs →
    r_id r = (Proxy.count st + N.of_nat i)%N →
    Proxy.promises st2 !! p = Spec.outcome r.
Proof.
  intros Hperm Hwf. cbv zeta.
  destruct (calls_spec file cs st) as (Hps & Hprom & Hcount & Hold & Hnew).
  rewrite Hps. split; [by rewrite length_fmap, length_seq|].
  set (handle := fun k : N =>
         length (Proxy.promises st) + N.to_nat (k - Proxy.count st)).
  assert (∀ r, r ∈ rs →
            ∃ i, i < length cs ∧ r_id r = (Proxy.count st + N.of_nat i)%N) as Hrange.
  { intros r Hr.
    assert (r_id r ∈ r_id <$> rs) as Hin by (apply list_elem_of_fmap; eauto).
    rewrite Hperm in Hin. apply list_elem_of_fmap in Hin as (i & -> & Hi).
    apply elem_of_seq in Hi. exists i. split; [lia|done]. }
  destruct (deliver_all file handle rs (Proxy.calls file cs st).1) as (_ & Hsettled & _).
  - rewrite Hperm. apply NoDup_fmap_2; [|apply NoDup_seq].
    intros i j Hij. lia.
  - intros r Hr. destruct (Hrange r Hr) as (i & Hi & Hid).
    assert (handle (r_id r) = length (Proxy.promises st) + i) as ->
      by (unfold handle; rewrite Hid; lia).
    split; [by rewrite Hid; apply Hnew|]. split.
    + rewrite Hprom, lookup_app_r by lia.
      apply lookup_replicate. split; [done|lia].
    + by apply (proj1 (Forall_forall _ _) Hwf).
  - intros r r' Hr Hr' Heq.
    destruct (Hrange r Hr) as (i & _ & Hi), (Hrange r' Hr') as (j & _ & Hj).
    unfold handle in Heq. lia.
  - intros i p r Hp Hr Hid.
    rewrite list_lookup_fmap in Hp.
    destruct (seq 0 (length cs) !! i) as [j|] eqn:Hj; [|done].
    apply lookup_seq in Hj as [-> _]. simpl in Hp. injection Hp as <-.
    rewrite <- (Hsettled r Hr). f_equal. unfold handle. rewrite Hid. lia.
Qed.

(** Three calls outstanding, answered in the order 2, 0, 1. *)
Lemma concurrent_calls_settle_by_id_witness :
  let cs := [("sum", [VNum 2; VNum 3]); ("missing", []); ("sum", [VNum 20; VNum 22])] in
  let rs :=
    [ {| r_result := Some (VNum 42); r_error := None; r_id := 2 |};
      {| r_result := Some (VNum 5); r_error := None; r_id := 0 |};
      {| r_result := None;
         r_error := Some (VStr "Function not found: missing");
         r_id := 1 |} ] in
  let st1 := (Proxy.calls "math.ts" cs Proxy.init).1 in
  let futures := (Proxy.calls "math.ts" cs Proxy.init).2 in
  let st2 := Proxy.run "math.ts" (Proxy.Deliver <$> rs) st1 in
  length futures = length cs ∧
  ∀ i p r,
    futures !! i = Some p →
    r ∈ rs →
    r_id r = (Proxy.count Proxy.init + N.of_nat i)%N →
    Proxy.promises st2 !! p = Spec.outcome r.
Proof.
  apply (concurrent_calls_settle_by_id "math.ts"
           [("sum", [VNum 2; VNum 3]); ("missing", []); ("sum", [VNum 20; VNum 22])]
           [ {| r_result := Some (VNum 42); r_error := None; r_id := 2 |};
             {| r_result := Some (VNum 5); r_error := None; r_id := 0 |};
             {| r_result := None;
                r_error := Some (VStr "Function not found: missing");
                r_id := 1 |} ]
           Proxy.init).
  - apply (bool_decide_unpack _). vm_compute. exact I.
  - repeat constructor; simpl; eauto.
Defined.

(** The round trip of one call: the proxy posts
    [{name: "sum", args: [2, 3], id: 0}], the dispatcher answers
    [{result: 5, id: 0}], and the future is fulfilled with 5. *)
Example sum_round_trip :
  let '(st, p) := Proxy.isolated "math.ts" "sum" [VNum 2; VNum 3] Proxy.init in
  let sent := {| name := "sum"; args := [VNum 2; VNum 3]; id := 0 |} in
  let answer := {| r_result := Some (VNum 5); r_error := None; r_id := 0 |} in
  Proxy.posted st = [(0, sent)] ∧
  Dispatcher.onmessage [("sum", Function Fixtures.sum)] sent = ([answer], Normal ()) ∧
  Proxy.promises (Proxy.run "math.ts" [Proxy.Deliver answer] st) !! p
  = Some (Proxy.Fulfilled (VNum 5)).
Proof. by vm_compute. Qed.

Example three_calls_settled :
  Proxy.promises
    (Proxy.run "math.ts"
       [ Proxy.Call "sum" [VNum 2; VNum 3]; Proxy.Call "missing" [];
         Proxy.Call "sum" [VNum 20; VNum 22];
         Proxy.Deliver {| r_result := Some (VNum 42); r_error := None; r_id := 2 |};
         Proxy.Deliver {| r_result := Some (VNum 5); r_error := None; r_id := 0 |};
         Proxy.Deliver {| r_result := None;
                          r_error := Some (VStr "Function not found: missing");
                          r_id := 1 |} ]
       Proxy.init)
  = [ Proxy.Fulfilled (VNum 5);
      Proxy.Rejected (VError "Error" "Function not found: missing");
      Proxy.Fulfilled (VNum 42) ].
Proof. by vm_compute. Qed.

(** * Further properties of the code *)

(** ** Strings *)

Section strings.

Lemma append_nil_r (s : string) : s +:+ "" = s.
Proof. induction s as [|a s IH]; [done|]. unfold String.app in *. simpl. by rewrite IH. Qed.

Lemma append_assoc (a b c : string) : (a +:+ b) +:+ c = a +:+ (b +:+ c).
Proof. induction a as [|x a IH]; [done|]. unfold String.app in *. simpl. by rewrite IH. Qed.

Lemma append_cons (x : Ascii.ascii) (a b : string) :
  String x a +:+ b = String x (a +:+ b).
Proof. done. Qed.

Lemma prefix_spec (p s : string) :
  String.prefix p s = true ↔ ∃ rest, s = p +:+ rest.
Proof.
  revert p. induction s as [|y s IH]; intros [|x p]; simpl.
  - split; [by exists ""|done].
  - split; [done|]. by intros [rest ?].
  - split; [by exists (String y s)|done].
  - destruct (Ascii.ascii_dec x y) as [->|Hne].
    + rewrite IH. split; intros [rest Hrest]; exists rest.
      * by rewrite append_cons, <- Hrest.
      * rewrite append_cons in Hrest. by injection Hrest.
    + split; [done|]. intros [rest Hrest]. rewrite append_cons in Hrest.
      injection Hrest as -> _. done.
Qed.

Lemma rev_app_spec (s acc : string) : String.rev_app s acc = String.rev s +:+ acc.
Proof.
  revert acc. induction s as [|x s IH]; intros acc; [done|].
  unfold String.rev. simpl. rewrite (IH (String x acc)), (IH (String x "")).
  by rewrite append_assoc.
Qed.

Lemma rev_cons (x : Ascii.ascii) (s : string) :
  String.rev (String x s) = String.rev s +:+ String x "".
Proof. unfold String.rev at 1. simpl. apply rev_app_spec. Qed.

Lemma rev_append (a b : string) : String.rev (a +:+ b) = String.rev b +:+ String.rev a.
Proof.
  induction a as [|x a IH]; [by rewrite append_nil_r|].
  by rewrite append_cons, !rev_cons, IH, append_assoc.
Qed.

Lemma rev_involutive (s : string) : String.rev (String.rev s) = s.
Proof.
  induction s as [|x s IH]; [done|].
  by rewrite rev_cons, rev_append, IH.
Qed.

(** [s.endsWith(suffix)] holds exactly of the strings that end in
    [suffix]. *)
Lemma endsWith_spec (s suffix : string) :
  Transform.endsWith s suffix = true ↔ ∃ stem, s = stem +:+ suffix.
Proof.
  unfold Transform.endsWith. rewrite prefix_spec. split.
  - intros [rest Hrest]. exists (String.rev rest).
    by rewrite <- (rev_involutive s), Hrest, rev_append, rev_involutive.
  - intros [stem ->]. exists (String.rev stem). by rewrite rev_append.
Qed.

End strings.

(** ** The scan as a whole *)

Section scan.
Import Registry.

(** One export occurrence. *)
Local Abbreviation visit := (fun acc occ => register_name occ.1 acc occ.2).

Lemma register_name_cases (f e : string) (ctx : context) (ws : list conflict) :
  (∃ owner, workerExports ctx !! e = Some owner ∧
            register_name f (ctx, ws) e = (ctx, ws ++ [Conflict e f owner])) ∨
  (workerExports ctx !! e = None ∧
   register_name f (ctx, ws) e
   = ({| workerExports := <[e := f]> (workerExports ctx);
         reverseMap := <[f := default [] (reverseMap ctx !! f) ++ [e]]> (reverseMap ctx) |},
      ws)).
Proof. simpl. destruct (workerExports ctx !! e) as [owner|]; eauto. Qed.

Lemma register_name_warned (f e : string) (ctx : context) (pre ws : list conflict) :
  register_name f (ctx, pre ++ ws) e
  = ((register_name f (ctx, ws) e).1, pre ++ (register_name f (ctx, ws) e).2).
Proof. simpl. destruct (workerExports ctx !! e); simpl; by rewrite ?app_assoc. Qed.

Lemma register_fold_warned (f : string) (exports : list string) (ctx : context)
    (pre ws : list conflict) :
  foldl (register_name f) (ctx, pre ++ ws) exports
  = ((foldl (register_name f) (ctx, ws) exports).1,
     pre ++ (foldl (register_name f) (ctx, ws) exports).2).
Proof.
  revert ctx ws. induction exports as [|e exports IH]; intros ctx ws; [done|].
  cbn [foldl]. rewrite register_name_warned.
  destruct (register_name f (ctx, ws) e) as [ctx' ws']. apply IH.
Qed.

Lemma register_fold (f : string) (exports : list string) (ctx : context)
    (pre : list conflict) :
  foldl (register_name f) (ctx, pre) exports
  = ((register f exports ctx).1, pre ++ (register f exports ctx).2).
Proof.
  unfold register. rewrite <- (app_nil_r pre) at 1. apply register_fold_warned.
Qed.

Lemma occurrences_cons (f : string) (exports : list string)
    (files : list (string * list string)) :
  Scan.occurrences ((f, exports) :: files)
  = ((fun e => (f, e)) <$> exports) ++ Scan.occurrences files.
Proof. done. Qed.

(** The two nested loops are one pass over the occurrences. *)
Lemma getContents_occurrences (files : list (string * list string)) (c : context) :
  getContents files c = foldl visit (reset c, []) (Scan.occurrences files).
Proof.
  unfold getContents. generalize (reset c, @nil conflict) as acc.
  induction files as [|[f exports] files IH]; intros [ctx ws]; [done|].
  rewrite occurrences_cons, foldl_app, foldl_fmap. cbn [foldl fst snd].
  change (foldl _ (ctx, ws) exports) with (foldl (register_name f) (ctx, ws) exports).
  rewrite (register_fold f exports ctx ws).
  destruct (register f exports ctx) as [ctx' ws']. apply IH.
Qed.

Lemma visit_consistent (acc : context * list conflict) (occ : string * string) :
  Scan.consistent acc.1 → Scan.consistent (visit acc occ).1.
Proof.
  destruct acc as [ctx ws], occ as [f e]. cbn [fst snd]. intros [Hmaps Hlists].
  destruct (register_name_cases f e ctx ws) as [(owner & _ & ->)|[Hfree ->]];
    [done|]. split; cbn [fst workerExports reverseMap].
  - intros e' f'. destruct (decide (f' = f)) as [->|Hf].
    + rewrite lookup_insert_eq. simpl. rewrite elem_of_app, list_elem_of_singleton.
      destruct (decide (e' = e)) as [->|He].
      * rewrite lookup_insert_eq. split; [by right|done].
      * rewrite lookup_insert_ne by done. rewrite Hmaps.
        split; [by left|]. by intros [?|?].
    + rewrite (lookup_insert_ne (reverseMap ctx)) by done.
      destruct (decide (e' = e)) as [->|He].
      * rewrite lookup_insert_eq. split; [congruence|].
        intros Hin%Hmaps. congruence.
      * rewrite lookup_insert_ne by done. apply Hmaps.
  - intros f' names. destruct (decide (f' = f)) as [->|Hf].
    + rewrite lookup_insert_eq. intros [= <-]. split.
      { by destruct (default [] (reverseMap ctx !! f)). }
      apply NoDup_app. split; [|split].
      * destruct (reverseMap ctx !! f) as [old|] eqn:Hold; [|constructor].
        by apply (Hlists f).
      * intros e' Hin%Hmaps ->%list_elem_of_singleton. congruence.
      * apply NoDup_singleton.
    + rewrite lookup_insert_ne by done. apply Hlists.
Qed.

Lemma fold_consistent (occs : list (string * string)) (acc : context * list conflict) :
  Scan.consistent acc.1 → Scan.consistent (foldl visit acc occs).1.
Proof.
  revert acc. induction occs as [|occ occs IH]; intros acc Hacc; [done|].
  apply IH. by apply visit_consistent.
Qed.

(** An owner, once recorded, is never replaced. *)
Lemma fold_owner (occs : list (string * string)) (acc : context * list conflict)
    (e : string) :
  workerExports (foldl visit acc occs).1 !! e
  = match workerExports acc.1 !! e with
    | Some owner => Some owner
    | None => (fun hit => hit.2.1) <$> list_find (fun occ => occ.2 = e) occs
    end.
Proof.
  revert acc. induction occs as [|[f e'] occs IH]; intros [ctx ws].
  { simpl. by destruct (workerExports ctx !! e). }
  cbn [foldl fst snd]. rewrite IH. clear IH. cbn [list_find].
  destruct (register_name_cases f e' ctx ws) as [(owner & Hown & ->)|[Hfree ->]]; simpl.
  - destruct (workerExports ctx !! e) as [o|] eqn:He; [done|].
    case_decide as Heq; simpl in Heq; [congruence|].
    by destruct (list_find _ occs) as [[]|].
  - destruct (decide (e' = e)) as [->|Hne].
    + by rewrite lookup_insert_eq, Hfree.
    + rewrite lookup_insert_ne by done.
      destruct (workerExports ctx !! e) as [o|]; [done|].
      by destruct (list_find _ occs) as [[]|].
Qed.

Lemma fold_accounts (occs : list (string * string)) (acc : context * list conflict) :
  length (foldl visit acc occs).2 + size (workerExports (foldl visit acc occs).1)
  = length acc.2 + size (workerExports acc.1) + length occs.
Proof.
  revert acc. induction occs as [|[f e] occs IH]; intros [ctx ws]; [simpl; lia|].
  cbn [foldl fst snd]. rewrite IH. clear IH.
  destruct (register_name_cases f e ctx ws) as [(owner & Hown & ->)|[Hfree ->]]; simpl.
  - rewrite length_app. simpl. lia.
  - rewrite map_size_insert_None by done. lia.
Qed.

Lemma fold_conflicts (occs : list (string * string)) (acc : context * list conflict)
    (w : conflict) :
  w ∈ (foldl visit acc occs).2 →
  w ∈ acc.2 ∨
  (workerExports (foldl visit acc occs).1 !! name w = Some (existing w) ∧
   (file w, name w) ∈ occs).
Proof.
  revert acc. induction occs as [|[f e] occs IH]; intros [ctx ws]; [by left|].
  cbn [foldl fst snd]. intros [Hw|[Hw Hocc]]%IH.
  - destruct (register_name_cases f e ctx ws) as [(owner & Hown & Heq)|[Hfree Heq]];
      rewrite Heq in Hw; simpl in Hw; [|by left].
    apply elem_of_app in Hw as [Hw| ->%list_elem_of_singleton]; [by left|].
    right. cbn [name existing file]. split; [|by left].
    rewrite fold_owner, Heq. cbn [fst]. by rewrite Hown.
  - right. split; [done|by right].
Qed.

End scan.

Lemma scan_keeps_maps_consistent_aux
    (files : list (string * list string)) (c : Registry.context) :
  Scan.consistent (Registry.getContents files c).1.
Proof.
  rewrite getContents_occurrences. apply fold_consistent.
  split; simpl; [|by intros f names; rewrite lookup_empty].
  intros e f. rewrite !lookup_empty. simpl. split; [done|].
  by intros ?%elem_of_nil.
Qed.

(** X1: after any scan the two maps agree (a name maps to a file
    exactly when the file's list holds the name), and every list in
    [reverseMap] is non-empty and free of repetitions. *)
Theorem scan_keeps_maps_consistent
    (files : list (string * list string)) (c : Registry.context) :
  Scan.consistent (Registry.getContents files c).1.
Proof. apply scan_keeps_maps_consistent_aux. Qed.

(** X2: whatever the files and their order, a name ends up owned by the
    file in which the scan meets it first, and by no file if it is
    never met. *)
Theorem scan_first_file_wins
    (files : list (string * list string)) (c : Registry.context) (e : string) :
  Registry.workerExports (Registry.getContents files c).1 !! e
  = Scan.first_owner files e.
Proof. rewrite getContents_occurrences, fold_owner. simpl. by rewrite lookup_empty. Qed.

(** X3: every warning of a scan is about a name the warned file does
    export, and names as the other file the one that owns the name when
    the scan is over. *)
Theorem scan_conflicts_name_the_owner
    (files : list (string * list string)) (c : Registry.context)
    (w : Registry.conflict) :
  w ∈ (Registry.getContents files c).2 →
  (Registry.file w, Registry.name w) ∈ Scan.occurrences files ∧
  Registry.workerExports (Registry.getContents files c).1 !! Registry.name w
  = Some (Registry.existing w).
Proof.
  rewrite getContents_occurrences. intros [Hw|[Hown Hocc]]%fold_conflicts; [|done].
  by apply elem_of_nil in Hw.
Qed.

Lemma scan_conflicts_name_the_owner_witness :
  let files := [("a.ts", ["x"]); ("b.ts", ["x"; "y"])] in
  let c := {| Registry.workerExports := ∅; Registry.reverseMap := ∅ |} in
  let w := Registry.Conflict "x" "b.ts" "a.ts" in
  (Registry.file w, Registry.name w) ∈ Scan.occurrences files ∧
  Registry.workerExports (Registry.getContents files c).1 !! Registry.name w
  = Some (Registry.existing w).
Proof.
  apply (scan_conflicts_name_the_owner
           [("a.ts", ["x"]); ("b.ts", ["x"; "y"])]
           {| Registry.workerExports := ∅; Registry.reverseMap := ∅ |}
           (Registry.Conflict "x" "b.ts" "a.ts")).
  vm_compute. left.
Defined.

(** X4: a scan drops nothing and counts nothing twice: the names
    registered and the warnings given add up to the export occurrences
    it went through. *)
Theorem scan_accounts_for_every_export
    (files : list (string * list string)) (c : Registry.context) :
  length (Registry.getContents files c).2
  + size (Registry.workerExports (Registry.getContents files c).1)
  = length (Scan.occurrences files).
Proof.
  rewrite getContents_occurrences, fold_accounts. simpl. by rewrite map_size_empty.
Qed.

(** ** The declaration file *)

Section declarations.
Import Declarations.
Context (import_path : string → string).

Local Abbreviation visit := (fun acc occ => scan_name import_path occ.1 acc occ.2).
Local Abbreviation lines :=
  (foldr (fun d rest => declaration import_path d.2 d.1 +:+ rest)).

Lemma scan_occurrences (files : list (string * list string)) (acc : scan) :
  foldl (scan_file import_path) acc files = foldl visit acc (Scan.occurrences files).
Proof.
  revert acc. induction files as [|[f exports] files IH]; intros acc; [done|].
  rewrite occurrences_cons, foldl_app, foldl_fmap. cbn [foldl]. rewrite IH.
  done.
Qed.

(** The maps and warnings are those of the scan without the script. *)
Lemma scan_registry (occs : list (string * string)) (acc : scan) :
  (ctx (foldl visit acc occs), warned (foldl visit acc occs))
  = foldl (fun a occ => Registry.register_name occ.1 a occ.2) (ctx acc, warned acc) occs.
Proof.
  revert acc. induction occs as [|[f e] occs IH]; intros acc; [done|].
  cbn [foldl fst snd]. rewrite IH. f_equal.
  unfold scan_name. simpl. by destruct (Registry.workerExports (ctx acc) !! e).
Qed.

Lemma lines_snoc (declared : list (string * string)) (d : string * string) (tail : string) :
  lines tail (declared ++ [d]) = lines (declaration import_path d.2 d.1 +:+ tail) declared.
Proof. by rewrite foldr_app. Qed.

Lemma lines_append (declared : list (string * string)) (s tail : string) :
  lines s declared +:+ tail = lines (s +:+ tail) declared.
Proof.
  induction declared as [|d declared IH]; [done|].
  simpl. by rewrite append_assoc, IH.
Qed.

Lemma scan_script (occs : list (string * string)) (acc : scan)
    (declared : list (string * string)) :
  script acc = header +:+ lines "" declared →
  NoDup declared.*2 →
  (∀ f e, (f, e) ∈ declared ↔ Registry.workerExports (ctx acc) !! e = Some f) →
  let declared' := declared ++ Scan.first_occurrences declared.*2 occs in
  script (foldl visit acc occs) = header +:+ lines "" declared' ∧
  NoDup declared'.*2 ∧
  ∀ f e, (f, e) ∈ declared'
         ↔ Registry.workerExports (ctx (foldl visit acc occs)) !! e = Some f.
Proof.
  revert acc declared. induction occs as [|[f e] occs IH];
    intros acc declared Hscript Hdup Hin; cbv zeta.
  { simpl. by rewrite app_nil_r. }
  cbn [foldl fst snd Scan.first_occurrences]. unfold scan_name at 2 4.
  assert (e ∈ declared.*2 ↔ is_Some (Registry.workerExports (ctx acc) !! e)) as Hseen.
  { split.
    - intros [[f' e'] [Heq Hd]]%list_elem_of_fmap. simpl in Heq. subst e'.
      apply Hin in Hd. eauto.
    - intros [f' Hf']. apply Hin in Hf'. apply list_elem_of_fmap. by exists (f', e). }
  destruct (Registry.workerExports (ctx acc) !! e) as [owner|] eqn:Hown.
  { rewrite decide_True by (apply Hseen; eauto). by apply (IH _ declared). }
  rewrite decide_False by (intros [? ?]%Hseen; done).
  specialize (IH
    {| ctx :=
         {| Registry.workerExports := <[e := f]> (Registry.workerExports (ctx acc));
            Registry.reverseMap :=
              <[f := default [] (Registry.reverseMap (ctx acc) !! f) ++ [e]]>
                (Registry.reverseMap (ctx acc)) |};
       warned := warned acc;
       script := script acc +:+ declaration import_path e f |}
    (declared ++ [(f, e)])).
  cbv zeta in IH. rewrite fmap_app, <- app_assoc in IH. simpl in IH.
  apply IH; clear IH.
  - rewrite Hscript, append_assoc. f_equal.
    by rewrite lines_snoc, lines_append, append_nil_r.
  - apply NoDup_app. split; [done|]. split; [|apply NoDup_singleton].
    intros e' He' ->%list_elem_of_singleton. apply Hseen in He' as [? ?]. done.
  - intros f' e'. rewrite elem_of_app, list_elem_of_singleton, Hin.
    destruct (decide (e' = e)) as [->|Hne].
    + rewrite lookup_insert_eq, Hown. split; [intros [?|?]|intros ?]; [done|congruence|].
      right. congruence.
    + rewrite lookup_insert_ne by done. split; [intros [?|?]; [done|congruence]|by left].
Qed.

End declarations.

(** X5: the declaration file is the fixed header, one [const] line for
    each registered name, typed from the file that owns the name, and
    the closing brace. The lines are those of the occurrences at which
    the scan meets a name for the first time, in the order of the scan:
    no registered name is left out, none is declared twice, and a name
    that only drew a warning gets no line. The maps and warnings the
    function leaves are those of the scan. *)
Theorem declarations_match_registry
    (import_path : string → string) (files : list (string * list string))
    (c : Registry.context) :
  let r := Declarations.getContents import_path files c in
  let declared := Scan.first_occurrences [] (Scan.occurrences files) in
  (Declarations.ctx r, Declarations.warned r) = Registry.getContents files c ∧
  Declarations.script r
  = Declarations.header
    +:+ foldr (fun d rest => Declarations.declaration import_path d.2 d.1 +:+ rest)
          Declarations.footer declared ∧
  NoDup declared.*2 ∧
  ∀ f e, (f, e) ∈ declared
         ↔ Registry.workerExports (Declarations.ctx r) !! e = Some f.
Proof.
  cbv zeta. unfold Declarations.getContents. cbn [Declarations.ctx Declarations.warned
    Declarations.script]. rewrite scan_occurrences. split.
  - by rewrite scan_registry, getContents_occurrences.
  - destruct (scan_script import_path (Scan.occurrences files)
                {| Declarations.ctx := Registry.reset c; Declarations.warned := [];
                   Declarations.script := Declarations.header |} [])
      as (Hscript & Hdup & Hin).
    + simpl. by rewrite append_nil_r.
    + constructor.
    + intros f e. simpl. rewrite lookup_empty. split; [by intros ?%elem_of_nil|done].
    + simpl in Hscript, Hdup, Hin. split; [|done].
      by rewrite Hscript, append_assoc, lines_append.
Qed.

Example declarations_two_files :
  Declarations.script
    (Declarations.getContents (fun file => Transform.dq +:+ "../../" +:+ file +:+ Transform.dq)
       [("a.ts", ["x"]); ("b.ts", ["x"; "y"])]
       {| Registry.workerExports := ∅; Registry.reverseMap := ∅ |})
  = String.concat Declarations.nl
      [ "type ToAsyncFunction<T> = T extends (...args: infer A) => infer R ? (...args: A) => Promise<R> : T";
        "export {}";
        "";
        "declare global {";
        "  const x: ToAsyncFunction<typeof import(" +:+ Transform.dq +:+ "../../a.ts"
          +:+ Transform.dq +:+ ").x>";
        "  const y: ToAsyncFunction<typeof import(" +:+ Transform.dq +:+ "../../b.ts"
          +:+ Transform.dq +:+ ").y>";
        "}";
        "" ].
Proof. by vm_compute. Qed.

(** ** The query of a module id *)

Section query.
Import Transform Query.

Lemma strip_query_cons (c : Ascii.ascii) (rest : string) :
  strip_query (String c rest)
  = if Ascii.eqb c mark && dot_plus_end rest then "" else String c (strip_query rest).
Proof. done. Qed.

Lemma strip_query_no_mark (s : string) :
  mark ∉ chars s → strip_query s = s.
Proof.
  induction s as [|c s IH]; [done|]. cbn [chars String.list_ascii_of_string].
  intros [Hc Hs]%not_elem_of_cons. rewrite strip_query_cons.
  assert (Ascii.eqb c mark = false) as -> by (apply Ascii.eqb_neq; congruence).
  simpl. by rewrite IH.
Qed.

Lemma strip_query_at_mark (p q : string) :
  mark ∉ chars p → dot_plus_end q = true →
  strip_query (p +:+ String mark q) = p.
Proof.
  intros Hp Hq. induction p as [|c p IH].
  { change ("" +:+ String mark q) with (String mark q).
    rewrite strip_query_cons, Hq. by rewrite Ascii.eqb_refl. }
  cbn [chars String.list_ascii_of_string] in Hp. apply not_elem_of_cons in Hp as [Hc Hp].
  rewrite append_cons, strip_query_cons.
  assert (Ascii.eqb c mark = false) as -> by (apply Ascii.eqb_neq; congruence).
  simpl. by rewrite IH.
Qed.

Lemma strip_query_cuts_a_query_aux (s : string) :
  ∃ cut, s = strip_query s +:+ cut ∧
         (cut = "" ∨ ∃ q, cut = String mark q ∧ dot_plus_end q = true).
Proof.
  induction s as [|c s (cut & Hs & Hcut)].
  { exists "". split; [done|by left]. }
  rewrite strip_query_cons.
  destruct (Ascii.eqb c mark) eqn:Hc; simpl.
  - apply Ascii.eqb_eq in Hc as ->.
    destruct (dot_plus_end s) eqn:Hq.
    + exists (String mark s). split; [done|]. right. by exists s.
    + exists cut. split; [|done]. by rewrite append_cons, <- Hs.
  - exists cut. split; [|done]. by rewrite append_cons, <- Hs.
Qed.

End query.

(** X6: what [strip_query] removes is nothing, or a [?] together with a
    non-empty rest of the id that holds no line terminator; what it
    keeps is the id up to there. *)
Theorem strip_query_cuts_a_query (_id : string) :
  ∃ cut, _id = Transform.strip_query _id +:+ cut ∧
         (cut = "" ∨ ∃ q, cut = String Query.mark q ∧ Transform.dot_plus_end q = true).
Proof. apply strip_query_cuts_a_query_aux. Qed.

(** X7: a worker file is transformed in the same way under any query:
    if the file name holds no [?], the id [file?query] gets the result
    the id [file] gets, for every non-empty query without line
    terminators. *)
Theorem transform_ignores_query
    (opts : Transform.WorkerPluginOptions) (strip_exports : string → string)
    (code file query : string) :
  Query.mark ∉ Query.chars file →
  Transform.dot_plus_end query = true →
  Transform.transform opts strip_exports code (file +:+ String Query.mark query)
  = Transform.transform opts strip_exports code file.
Proof.
  intros Hfile Hquery. unfold Transform.transform.
  by rewrite strip_query_at_mark, strip_query_no_mark.
Qed.

Lemma transform_ignores_query_witness :
  let opts :=
    {| Transform.opt_mode := Transform.client;
       Transform.context :=
         {| Registry.workerExports := {[ "sum" := "/app/workers/math.ts" ]};
            Registry.reverseMap := {[ "/app/workers/math.ts" := ["sum"] ]} |};
       Transform.sourcemap := false |} in
  Transform.transform opts (fun code => code) "const sum = 1"
    ("/app/workers/math.ts" +:+ String Query.mark "worker&v=1")
  = Transform.transform opts (fun code => code) "const sum = 1" "/app/workers/math.ts".
Proof.
  apply (transform_ignores_query
           {| Transform.opt_mode := Transform.client;
              Transform.context :=
                {| Registry.workerExports := {[ "sum" := "/app/workers/math.ts" ]};
                   Registry.reverseMap := {[ "/app/workers/math.ts" := ["sum"] ]} |};
              Transform.sourcemap := false |}
           (fun code => code) "const sum = 1" "/app/workers/math.ts" "worker&v=1").
  - apply (bool_decide_unpack _). vm_compute. exact I.
  - reflexivity.
Defined.

Section idempotence.
Import Transform Query.

Lemma prefix_before_mark (t p q : string) :
  mark ∉ chars t → String.prefix t (p +:+ String mark q) = String.prefix t p.
Proof.
  revert t. induction p as [|c p IH]; intros [|a t] Ht; try done.
  - cbn [chars String.list_ascii_of_string] in Ht.
    apply not_elem_of_cons in Ht as [Ha _].
    change ("" +:+ String mark q) with (String mark q). simpl.
    destruct (Ascii.ascii_dec a mark); [congruence|done].
  - cbn [chars String.list_ascii_of_string] in Ht.
    apply not_elem_of_cons in Ht as [_ Ht].
    rewrite append_cons. simpl. destruct (Ascii.ascii_dec a c); [by apply IH|done].
Qed.

Lemma line_terminators_no_mark : Forall (fun t => mark ∉ chars t) line_terminators.
Proof. repeat constructor; apply (bool_decide_unpack _); by vm_compute. Qed.

Lemma existsb_prefix_before_mark (ts : list string) (p q : string) :
  Forall (fun t => mark ∉ chars t) ts →
  existsb (fun t => String.prefix t (p +:+ String mark q)) ts
  = existsb (fun t => String.prefix t p) ts.
Proof.
  induction 1 as [|t ts Ht _ IH]; [done|].
  cbn [existsb]. by rewrite prefix_before_mark, IH.
Qed.

Lemma no_line_terminator_before_mark (p q : string) :
  no_line_terminator p = true → no_line_terminator q = true →
  no_line_terminator (p +:+ String mark q) = true.
Proof.
  intros Hp Hq. induction p as [|c p IH].
  { change ("" +:+ String mark q) with (String mark q). simpl. by rewrite Hq. }
  rewrite append_cons. cbn [no_line_terminator] in Hp |- *.
  apply andb_true_iff in Hp as [Hc Hp]. rewrite IH, andb_true_r by done.
  rewrite <- Hc. f_equal. rewrite <- append_cons.
  apply existsb_prefix_before_mark, line_terminators_no_mark.
Qed.

Lemma dot_plus_end_strip_query (s : string) :
  dot_plus_end (strip_query s) = true → dot_plus_end s = true.
Proof.
  destruct (strip_query_cuts_a_query_aux s) as (cut & Hs & [->|(q & -> & Hq)]).
  { by rewrite append_nil_r in Hs; rewrite <- Hs. }
  unfold dot_plus_end. intros [Hne Hlt]%andb_true_iff.
  apply andb_true_iff in Hq as [_ Hq].
  rewrite Hs at 1 2. rewrite no_line_terminator_before_mark by done.
  destruct (strip_query s); [done|]. by rewrite append_cons.
Qed.

End idempotence.

(** X8: cutting the query off is idempotent: an id that went through
    [strip_query] is left as it is by a second pass. *)
Theorem strip_query_idempotent (_id : string) :
  Transform.strip_query (Transform.strip_query _id) = Transform.strip_query _id.
Proof.
  induction _id as [|c s IH]; [done|]. rewrite strip_query_cons.
  destruct (Ascii.eqb c Query.mark && Transform.dot_plus_end s) eqn:Hcut; [done|].
  rewrite strip_query_cons, IH.
  destruct (Ascii.eqb c Query.mark && Transform.dot_plus_end (Transform.strip_query s))
    eqn:Hcut'; [|done].
  apply andb_true_iff in Hcut' as [Hc Hq%dot_plus_end_strip_query].
  by rewrite Hc, Hq in Hcut.
Qed.

(** ** The virtual module as text *)

Section load.
Import Transform Plugin.
Context (stringify : string → string).

Lemma foldl_source (g : string → string) (names : list string) (init : string) :
  foldl (fun source name => source +:+ g name) init names
  = init +:+ foldr (fun name rest => g name +:+ rest) "" names.
Proof.
  revert init. induction names as [|name names IH]; intros init; simpl.
  - by rewrite append_nil_r.
  - by rewrite IH, append_assoc.
Qed.

Lemma source_split (g : string → string) (before after : list string) (name : string) :
  foldr (fun name rest => g name +:+ rest) "" (before ++ name :: after)
  = foldr (fun name rest => g name +:+ rest) "" before
    +:+ g name +:+ foldr (fun name rest => g name +:+ rest) "" after.
Proof.
  induction before as [|b before IH]; [done|]. simpl. by rewrite IH, !append_assoc.
Qed.

(** What [load] generates for a non-empty list of names. *)
Lemma load_listed (opts : WorkerPluginOptions) (file : string) (names : list string) :
  Registry.reverseMap (context opts) !! file = Some names → names ≠ [] →
  load stringify opts file
  = Generated
      ((match opt_mode opts with client => "" +:+ prelude stringify file | server => "" end)
       +:+ foldr (fun name rest => proxy_source stringify (opt_mode opts) file name +:+ rest)
             "" names).
Proof.
  intros Hfile Hnames. unfold load. rewrite Hfile.
  destruct names as [|name names]; [done|]. by rewrite foldl_source.
Qed.

End load.

(** X9: after a scan, [load] answers with the bare ['export {}']
    exactly for the files that own no export; for every other file it
    generates a module. *)
Theorem load_is_bare_for_files_without_exports
    (stringify : string → string) (m : Transform.mode) (sm : bool)
    (files : list (string * list string)) (c : Registry.context) (file : string) :
  let ctx := (Registry.getContents files c).1 in
  Plugin.load stringify
    {| Transform.opt_mode := m; Transform.context := ctx; Transform.sourcemap := sm |} file
  = Plugin.Bare "export {}"
  ↔ ∀ name, Registry.workerExports ctx !! name ≠ Some file.
Proof.
  cbv zeta. destruct (scan_keeps_maps_consistent_aux files c) as [Hmaps Hlists].
  destruct (Registry.reverseMap (Registry.getContents files c).1 !! file)
    as [names|] eqn:Hfile.
  - destruct (Hlists file names Hfile) as [Hne _].
    rewrite (load_listed stringify _ file names) by done. split; [done|].
    intros Hnone. destruct names as [|name names]; [done|].
    destruct (Hnone name). apply Hmaps. rewrite Hfile. by left.
  - unfold Plugin.load. cbn [Transform.context]. rewrite Hfile. split; [|done].
    intros _ name Hname%Hmaps. rewrite Hfile in Hname. by apply elem_of_nil in Hname.
Qed.

(** X10: after a scan, in either mode, the code [load] generates for a
    file contains, for every name the registry gives to that file, the
    text [load] writes for that name's proxy. (Whether the text as a
    whole is a well-formed module is not part of this.) *)
Theorem every_registered_name_gets_a_proxy
    (stringify : string → string) (m : Transform.mode) (sm : bool)
    (files : list (string * list string)) (c : Registry.context) (name file : string) :
  let ctx := (Registry.getContents files c).1 in
  Registry.workerExports ctx !! name = Some file →
  ∃ before after,
    Plugin.load stringify
      {| Transform.opt_mode := m; Transform.context := ctx; Transform.sourcemap := sm |} file
    = Plugin.Generated (before +:+ Plugin.proxy_source stringify m file name +:+ after).
Proof.
  cbv zeta. destruct (scan_keeps_maps_consistent_aux files c) as [Hmaps Hlists].
  intros Hname%Hmaps.
  destruct (Registry.reverseMap (Registry.getContents files c).1 !! file)
    as [names|] eqn:Hfile; [|by apply elem_of_nil in Hname].
  destruct (Hlists file names Hfile) as [Hne _].
  rewrite (load_listed stringify _ file names) by done.
  simpl in Hname. apply list_elem_of_split in Hname as (l1 & l2 & ->).
  rewrite source_split, <- append_assoc. by eexists _, _.
Qed.

Lemma every_registered_name_gets_a_proxy_witness :
  let stringify := fun s => Transform.dq +:+ s +:+ Transform.dq in
  let files := [("a.ts", ["x"]); ("b.ts", ["x"; "y"])] in
  let c := {| Registry.workerExports := ∅; Registry.reverseMap := ∅ |} in
  let ctx := (Registry.getContents files c).1 in
  ∃ before after,
    Plugin.load stringify
      {| Transform.opt_mode := Transform.client; Transform.context := ctx;
         Transform.sourcemap := false |} "b.ts"
    = Plugin.Generated
        (before +:+ Plugin.proxy_source stringify Transform.client "b.ts" "y" +:+ after).
Proof.
  apply (every_registered_name_gets_a_proxy
           (fun s => Transform.dq +:+ s +:+ Transform.dq) Transform.client false
           [("a.ts", ["x"]); ("b.ts", ["x"; "y"])]
           {| Registry.workerExports := ∅; Registry.reverseMap := ∅ |} "y" "b.ts").
  by vm_compute.
Defined.

(** X11: the source of every import the [imports:extend] hook
    registers begins with the virtual id, so [resolveId] keeps it as it
    is and [loadInclude] accepts it, whatever [withQuery] appends. *)
Theorem registered_imports_are_resolved
    (withQuery : string → string) (name file : string) :
  let source := Hooks.from (Hooks.import_of withQuery name file) in
  Plugin.resolveId source = Some source ∧ Plugin.loadInclude source = true.
Proof.
  cbv zeta. unfold Plugin.resolveId, Plugin.loadInclude, Plugin.startsWith.
  assert (String.prefix Plugin.VIRTUAL_ID
            (Hooks.from (Hooks.import_of withQuery name file)) = true) as ->; [|done].
  apply prefix_spec. by exists (withQuery file).
Qed.

(** X12: the templates the [builder:watch] hook has regenerated are
    those whose file name ends in [nuxt-workers.d.ts], [/imports.d.ts]
    or [/imports.mjs]; the entry [/types/imports.d.ts] of the list adds
    nothing to these. *)
Theorem watch_filter_suffixes (filename : string) :
  Hooks.filter filename = true
  ↔ ∃ stem, filename = stem +:+ "nuxt-workers.d.ts" ∨
            filename = stem +:+ "/imports.d.ts" ∨
            filename = stem +:+ "/imports.mjs".
Proof.
  unfold Hooks.filter. cbn [existsb].
  rewrite orb_false_r, !orb_true_iff, !endsWith_spec. split.
  - intros [[stem ->]|[[stem ->]|[[stem ->]|[stem ->]]]].
    + exists stem. by left.
    + exists (stem +:+ "/types"). right. left. by rewrite append_assoc.
    + exists stem. right. by left.
    + exists stem. right. by right.
  - intros [stem [->|[->| ->]]].
    + left. by exists stem.
    + right. right. left. by exists stem.
    + right. right. right. by exists stem.
Qed.

(** ** The dispatcher, whatever the call *)

(** X13: whatever the table and the call, the dispatcher posts at most
    one response, and a response it posts bears the id of the call and
    exactly one of [result] and [error]. *)
Theorem dispatcher_never_answers_twice
    (exports : list (string * slot)) (data : CallEnvelope) :
  let answers := (Dispatcher.onmessage exports data).1 in
  (length answers ≤ 1)%nat ∧
  Forall (fun r => r_id r = id data ∧ (is_Some (r_result r) ↔ r_error r = None)) answers.
Proof.
  cbv zeta. unfold Dispatcher.onmessage, Dispatcher.post.
  assert (∀ r : ResponseEnvelope,
            r_id r = id data → (is_Some (r_result r) ↔ r_error r = None) →
            (length [r] ≤ 1)%nat ∧
            Forall (fun r => r_id r = id data ∧ (is_Some (r_result r) ↔ r_error r = None)) [r])
    as Hone.
  { intros r ? ?. split; [done|]. by apply Forall_singleton. }
  destruct (falsy _).
  { apply Hone; simpl; [done|]. split; [by intros []|done]. }
  destruct (call _ _) as [v|e].
  { apply Hone; simpl; [done|]. split; [done|eauto]. }
  destruct (get_message e) as [message|e'].
  { apply Hone; simpl; [done|]. split; [by intros []|done]. }
  simpl. split; [lia|constructor].
Qed.

(** ** The pending-call table over the life of a binding *)

Section table.
Import Proxy Router.
Context (file : string).

Lemma init_tabled : tabled init.
Proof. split; [done|]. intros k. simpl. rewrite lookup_empty. by rewrite decide_False by lia. Qed.

Lemma isolated_tabled (name : string) (args : list value) (st : state) :
  tabled st → tabled (isolated file name args st).1.
Proof.
  intros [Hlen Hmap].
  destruct (isolated_spec file name args st) as (_ & Hmap' & Hcount & Hprom & _).
  split.
  - rewrite Hprom, Hcount, length_app. simpl. lia.
  - intros k. rewrite Hmap', Hcount.
    destruct (decide (k = count st)) as [->|Hne].
    + rewrite lookup_insert_eq, decide_True by lia. f_equal. lia.
    + rewrite lookup_insert_ne, Hmap by done.
      destruct (decide (k < count st)%N);
        [by rewrite decide_True by lia|by rewrite decide_False by lia].
Qed.

(** The router as lookup, then settlement, then [settle]. *)
Lemma onmessage_settlement (data : ResponseEnvelope) (st : state) (p : nat) :
  map st !! r_id data = Some p →
  onmessage data st = bind (settlement data) (fun o => Normal (settle p o st)).
Proof.
  intros Hp. unfold onmessage, settlement. rewrite Hp.
  destruct (r_error data) as [e|]; [|done]. by destruct (new_Error e).
Qed.

Lemma deliver_length (data : ResponseEnvelope) (st : state) :
  length (promises (step file st (Deliver data))) = length (promises st).
Proof.
  simpl. destruct (map st !! r_id data) as [p|] eqn:Hp.
  - rewrite (onmessage_settlement _ _ p Hp).
    destruct (settlement data) as [o|]; simpl; [|done]. apply settle_frame.
  - unfold onmessage. by rewrite Hp.
Qed.

Lemma deliver_tabled (data : ResponseEnvelope) (st : state) :
  tabled st → tabled (step file st (Deliver data)).
Proof.
  intros [Hlen Hmap]. destruct (deliver_frame file data st) as (Hm & Hc & _).
  split.
  - by rewrite deliver_length, Hc.
  - intros k. by rewrite Hm, Hc.
Qed.

Lemma run_tabled (trace : list event) (st : state) :
  tabled st → tabled (run file trace st).
Proof.
  revert st. induction trace as [|[name args|data] trace IH]; intros st Hst; [done|..].
  - apply (IH (isolated file name args st).1). by apply isolated_tabled.
  - apply (IH (step file st (Deliver data))). by apply deliver_tabled.
Qed.

Lemma run_snoc (trace : list event) (ev : event) (st : state) :
  run file (trace ++ [ev]) st = step file (run file trace st) ev.
Proof. unfold run. by rewrite foldl_app. Qed.

(** A promise that is settled was settled by a delivery for its id. *)
Lemma settled_by_own_id (trace : list event) (p : nat) (o : promise) :
  promises (run file trace init) !! p = Some o → o ≠ Pending →
  ∃ data, Deliver data ∈ trace ∧ r_id data = N.of_nat p ∧ settlement data = Normal o.
Proof.
  revert p o. induction trace as [|ev trace IH] using rev_ind; intros p o; [done|].
  rewrite run_snoc.
  assert (tabled (run file trace init)) as [Hlen Hmap] by apply run_tabled, init_tabled.
  set (st := run file trace init) in *.
  assert (∀ data, Deliver data ∈ trace → Deliver data ∈ trace ++ [ev]) as Hmono.
  { intros data Hin. apply elem_of_app. by left. }
  destruct ev as [name args|data].
  - simpl. destruct (isolated_spec file name args st) as (_ & _ & _ & -> & _).
    intros Hp Ho. destruct (decide (p < length (promises st))) as [Hlt|Hge].
    + rewrite lookup_app_l in Hp by done.
      destruct (IH p o Hp Ho) as (data & ? & ? & ?). eauto.
    + rewrite lookup_app_r in Hp by lia.
      destruct (p - length (promises st)); simplify_eq/=.
  - simpl. intros Hp Ho.
    assert (promises st !! p = Some o ∨
            promises st !! p ≠ Some o ∧ r_id data = N.of_nat p ∧
            settlement data = Normal o) as [Hold|(_ & ? & ?)].
    { destruct (map st !! r_id data) as [q|] eqn:Hq.
      - rewrite (onmessage_settlement _ _ q Hq) in Hp.
        destruct (settlement data) as [o'|]; simpl in Hp; [|by left].
        rewrite Hmap in Hq. case_decide; [|done]. injection Hq as <-.
        destruct (decide (N.to_nat (r_id data) = p)) as [<-|Hne].
        + unfold settle in Hp.
          destruct (promises st !! N.to_nat (r_id data)) as [[| |]|] eqn:Hst;
            simpl in Hp; try (left; congruence).
          rewrite list_lookup_insert_eq in Hp by (by eapply lookup_lt_Some).
          injection Hp as ->. right. split; [congruence|]. split; [lia|done].
        + rewrite settle_other in Hp by done. by left.
      - unfold onmessage in Hp. rewrite Hq in Hp. by left. }
    + destruct (IH p o Hold Ho) as (data' & ? & ? & ?). eauto.
    + exists data. split; [|done]. apply elem_of_app. right. by left.
Qed.

(** Ids that were posted are below the counter. *)
Lemma posted_below_count (trace : list event) (w : nat) (call : CallEnvelope) :
  (w, call) ∈ posted (run file trace init) →
  (id call < count (run file trace init))%N.
Proof.
  intros Hin. destruct (run_ids file trace init) as [-> Hids].
  assert (id call ∈ (fun m => id m.2) <$> posted (run file trace init)) as Hid.
  { apply list_elem_of_fmap. by exists (w, call). }
  rewrite Hids in Hid. simpl in Hid.
  apply list_elem_of_fmap in Hid as (i & -> & Hi%elem_of_seq). simpl. lia.
Qed.

(** Settling two different promises can be done in either order. *)
Lemma settle_commute (p q : nat) (o o' : promise) (st : state) :
  p ≠ q → settle p o (settle q o' st) = settle q o' (settle p o st).
Proof.
  intros Hne. unfold settle at 1 3.
  rewrite !settle_other by done.
  destruct (promises st !! p) as [[| |]|] eqn:Hp, (promises st !! q) as [[| |]|] eqn:Hq;
    unfold settle; rewrite ?Hp, ?Hq; simpl;
    rewrite ?list_lookup_insert_ne, ?Hp, ?Hq by done; try done.
  f_equal. by apply list_insert_insert_ne.
Qed.

End table.

(** X15: through any calls and deliveries, the pending-call table of a
    binding holds exactly the ids of the calls made so far, settled or
    not, each bound to the promise its call returned; nothing is ever
    taken out, and there is one promise for each call. *)
Theorem table_holds_every_call_ever_made (file : string) (trace : list Proxy.event) (k : N) :
  let st := Proxy.run file trace Proxy.init in
  length (Proxy.promises st) = Proxy.n_calls trace ∧
  Proxy.map st !! k
  = if decide (k < N.of_nat (Proxy.n_calls trace))%N then Some (N.to_nat k) else None.
Proof.
  cbv zeta.
  destruct (run_tabled file trace Proxy.init init_tabled) as [Hlen Hmap].
  destruct (run_ids file trace Proxy.init) as [Hcount _]. simpl in Hcount.
  rewrite Hlen, Hmap, Hcount. split; [lia|].
  by replace (0 + N.of_nat (Proxy.n_calls trace))%N with (N.of_nat (Proxy.n_calls trace))
    by lia.
Qed.

(** X16: there is no cross-talk. Let calls be made with arguments that
    can be cloned (the values of this model, for which [postMessage]
    succeeds), and let responses be delivered, in any interleaving,
    unknown ids and repeated responses included. Then a future that is
    fulfilled was fulfilled by a delivered response that bears the id of
    its own call and has no [error] key, with the [result] of that
    response; and a future that is rejected was rejected by a delivered
    response that bears the id of its own call and has an [error]
    key. *)
Theorem futures_are_settled_by_their_own_id
    (file : string) (trace : list Proxy.event) (p : nat) (o : Proxy.promise) :
  Proxy.promises (Proxy.run file trace Proxy.init) !! p = Some o →
  o ≠ Proxy.Pending →
  ∃ data,
    Proxy.Deliver data ∈ trace ∧ r_id data = N.of_nat p ∧
    match o with
    | Proxy.Fulfilled v => r_error data = None ∧ v = default VUndefined (r_result data)
    | Proxy.Rejected _ => is_Some (r_error data)
    | Proxy.Pending => False
    end.
Proof.
  intros Hp Ho. destruct (settled_by_own_id file trace p o Hp Ho)
    as (data & Hin & Hid & Hsettle).
  exists data. split; [done|]. split; [done|].
  unfold Router.settlement in Hsettle.
  destruct (r_error data) as [e|].
  - destruct (new_Error e) as [reason|]; simpl in Hsettle; [|done].
    injection Hsettle as <-. eauto.
  - by injection Hsettle as <-.
Qed.

Lemma futures_are_settled_by_their_own_id_witness :
  let trace :=
    [ Proxy.Call "sum" [VNum 2; VNum 3]; Proxy.Call "sum" [VNum 1; VNum 1];
      Proxy.Deliver {| r_result := Some (VNum 2); r_error := None; r_id := 1 |};
      Proxy.Deliver {| r_result := Some (VNum 9); r_error := None; r_id := 7 |} ] in
  ∃ data,
    Proxy.Deliver data ∈ trace ∧ r_id data = N.of_nat 1 ∧
    (r_error data = None ∧ VNum 2 = default VUndefined (r_result data)).
Proof.
  apply (futures_are_settled_by_their_own_id "math.ts"
           [ Proxy.Call "sum" [VNum 2; VNum 3]; Proxy.Call "sum" [VNum 1; VNum 1];
             Proxy.Deliver {| r_result := Some (VNum 2); r_error := None; r_id := 1 |};
             Proxy.Deliver {| r_result := Some (VNum 9); r_error := None; r_id := 7 |} ]
           1 (Proxy.Fulfilled (VNum 2))).
  - by vm_compute.
  - discriminate.
Defined.



(** X18: a response to a call that was really made is never turned
    away: in any state a binding can reach, a ResponseEnvelope whose id
    is that of a posted envelope is handled without an exception, be it
    the first response for that id or a later one. *)
Theorem responses_to_posted_calls_are_handled
    (file : string) (trace : list Proxy.event) (w : nat) (call : CallEnvelope)
    (data : ResponseEnvelope) (o : Proxy.promise) :
  (w, call) ∈ Proxy.posted (Proxy.run file trace Proxy.init) →
  r_id data = id call →
  Spec.outcome data = Some o →
  ∃ st', Proxy.onmessage data (Proxy.run file trace Proxy.init) = Normal st'.
Proof.
  intros Hposted%posted_below_count Hid Ho.
  destruct (run_tabled file trace Proxy.init init_tabled) as [_ Hmap].
  eexists. apply (onmessage_found _ _ (N.to_nat (r_id data)) o); [|done].
  rewrite Hmap, Hid. by rewrite decide_True.
Qed.

Lemma responses_to_posted_calls_are_handled_witness :
  let trace :=
    [ Proxy.Call "sum" [VNum 2; VNum 3];
      Proxy.Deliver {| r_result := Some (VNum 5); r_error := None; r_id := 0 |} ] in
  let again := {| r_result := Some (VNum 6); r_error := None; r_id := 0 |} in
  ∃ st', Proxy.onmessage again (Proxy.run "math.ts" trace Proxy.init) = Normal st'.
Proof.
  apply (responses_to_posted_calls_are_handled "math.ts"
           [ Proxy.Call "sum" [VNum 2; VNum 3];
             Proxy.Deliver {| r_result := Some (VNum 5); r_error := None; r_id := 0 |} ]
           0 {| name := "sum"; args := [VNum 2; VNum 3]; id := 0 |}
           {| r_result := Some (VNum 6); r_error := None; r_id := 0 |}
           (Proxy.Fulfilled (VNum 6))).
  - vm_compute. left.
  - reflexivity.
  - reflexivity.
Defined.

(** X19: responses for different ids do not get in each other's way:
    in any state a binding can reach, delivering two of them in one
    order or the other leaves the same state, whether or not either of
    them makes the router throw. *)
Theorem deliveries_for_different_ids_commute
    (file : string) (trace : list Proxy.event) (d1 d2 : ResponseEnvelope) :
  r_id d1 ≠ r_id d2 →
  Proxy.run file (trace ++ [Proxy.Deliver d1; Proxy.Deliver d2]) Proxy.init
  = Proxy.run file (trace ++ [Proxy.Deliver d2; Proxy.Deliver d1]) Proxy.init.
Proof.
  intros Hne. unfold Proxy.run. rewrite !foldl_app.
  destruct (run_tabled file trace Proxy.init init_tabled) as [_ Hmap].
  unfold Proxy.run in Hmap. set (st := foldl (Proxy.step file) Proxy.init trace) in *.
  assert (∀ d, (∀ st', Proxy.map st' = Proxy.map st →
                       Proxy.step file st' (Proxy.Deliver d) = st') ∨
               ∃ o, ∀ st', Proxy.map st' = Proxy.map st →
                           Proxy.step file st' (Proxy.Deliver d)
                           = Proxy.settle (N.to_nat (r_id d)) o st') as Hstep.
  { intros d. destruct (Proxy.map st !! r_id d) as [p|] eqn:Hp.
    - rewrite Hmap in Hp. case_decide; [|done]. injection Hp as <-.
      assert (∀ st', Proxy.map st' = Proxy.map st →
                     Proxy.map st' !! r_id d = Some (N.to_nat (r_id d))) as Hp'.
      { intros st' ->. by rewrite Hmap, decide_True. }
      destruct (Router.settlement d) as [o|e] eqn:Ho.
      + right. exists o. intros st' Hst'. simpl.
        by rewrite (onmessage_settlement _ _ _ (Hp' st' Hst')), Ho.
      + left. intros st' Hst'. simpl.
        by rewrite (onmessage_settlement _ _ _ (Hp' st' Hst')), Ho.
    - left. intros st' Hst'. simpl. unfold Proxy.onmessage. by rewrite Hst', Hp. }
  assert (∀ p o, Proxy.map (Proxy.settle p o st) = Proxy.map st) as Hframe
    by (intros; apply settle_frame).
  cbn [foldl].
  destruct (Hstep d1) as [H1|[o1 H1]], (Hstep d2) as [H2|[o2 H2]].
  - by rewrite (H1 st), (H2 st), (H1 st).
  - rewrite (H1 st), (H2 st) by done. by rewrite H1.
  - rewrite (H2 st), (H1 st) by done. by rewrite H2.
  - rewrite (H1 st), (H2 st) by done. rewrite H1, H2 by done.
    symmetry. apply settle_commute. lia.
Qed.

Lemma deliveries_for_different_ids_commute_witness :
  let trace := [Proxy.Call "sum" [VNum 2; VNum 3]; Proxy.Call "sum" [VNum 1; VNum 1]] in
  let d1 := {| r_result := Some (VNum 5); r_error := None; r_id := 0 |} in
  let d2 := {| r_result := None; r_error := Some (VStr "busy"); r_id := 1 |} in
  Proxy.run "math.ts" (trace ++ [Proxy.Deliver d1; Proxy.Deliver d2]) Proxy.init
  = Proxy.run "math.ts" (trace ++ [Proxy.Deliver d2; Proxy.Deliver d1]) Proxy.init.
Proof.
  apply (deliveries_for_different_ids_commute "math.ts"
           [Proxy.Call "sum" [VNum 2; VNum 3]; Proxy.Call "sum" [VNum 1; VNum 1]]
           {| r_result := Some (VNum 5); r_error := None; r_id := 0 |}
           {| r_result := None; r_error := Some (VStr "busy"); r_id := 1 |}).
  simpl. lia.
Defined.
